(** * Project Trishul: report submission and analysis polling

    A shallow embedding of the client-side workflow of the incident
    dashboard: the [api] service module ([reportDisaster], [getDisaster],
    [pollDisasterAnalysis]) and the [handleSubmit] handler of the [App]
    component, together with the properties the specification states
    about them.

    JavaScript runs the code on a single-threaded event loop.  The model
    makes that loop explicit: a poll session is a state record, and every
    job the runtime can run (the interval timer firing, the promise of a
    pending [getDisaster] settling, the holder of the handle clearing the
    interval) is an event that [Poller.step] executes to completion. *)

From stdpp Require Import gmap strings list sorting.
From Stdlib Require Import ZArith NArith Lia.

Open Scope string_scope.
Open Scope list_scope.
Open Scope nat_scope.

(** ** JSON values and records received from the backend *)

Inductive jsval :=
| JStr (s : string)
| JNum (z : Z)
| JNull.

Global Instance jsval_eq_dec : EqDecision jsval.
Proof. solve_decision. Defined.

(** [response.data] of [GET /disasters/{id}/]: a JSON object. *)
Abbreviation Disaster := (gmap string jsval).

(** [disaster.status === 'analyzed']: strict equality, so a missing field
    ([undefined]) or a value of another type compares unequal. *)
Definition is_analyzed (disaster : Disaster) : bool :=
  bool_decide (disaster !! "status" = Some (JStr "analyzed")).

(** Truthiness of a JavaScript string: every string but the empty one. *)
Definition truthy (s : string) : bool :=
  match s with
  | EmptyString => false
  | String _ _ => true
  end.

(** [a || b] on strings. *)
Definition js_or (a b : string) : string := if truthy a then a else b.

(** A blank string: nothing but white space (the empty string included). *)
Fixpoint is_blank (s : string) : bool :=
  match s with
  | EmptyString => true
  | String c s' => Ascii.is_space c && is_blank s'
  end.

(** ** The [api] service module *)

(** The four request builders of the module; a value of this type is one
    HTTP request handed to axios. *)
Inductive Request :=
| getFireStations
| reportDisaster (data : gmap string string)
| getDisaster (id : N)
| getActiveDisasters.

Global Instance Request_eq_dec : EqDecision Request.
Proof. solve_decision. Defined.

(** The period passed to [setInterval], in milliseconds. *)
Definition INTERVAL_MS : N := 3000.

(** Default of the [maxAttempts] parameter. *)
Definition DEFAULT_MAX_ATTEMPTS : Z := 20.

(** What running a callback ends in: a normal return or a thrown
    exception, each with the state the callback left behind. *)
Inductive Completion (A : Type) :=
| Normal (s : A)
| Throw (s : A).
Arguments Normal {A} s.
Arguments Throw {A} s.

Definition outcome {A} (c : Completion A) : A :=
  match c with Normal s | Throw s => s end.

(** ** [pollDisasterAnalysis] on the event loop *)

Module Poller.

(** Jobs the event loop can run for one poll session.  Tick [k] is the
    [k]-th run of the interval callback, the one that leaves
    [attempts = k]. *)
Inductive Event :=
| EvElapse (ms : N)                     (* time passes, nothing runs *)
| EvTimer                               (* the interval fires: the callback runs up to its [await] *)
| EvFulfil (k : nat) (data : Disaster)  (* tick k's [getDisaster] promise fulfils with [response.data = data] *)
| EvReject (k : nat)                    (* tick k's [getDisaster] promise rejects *)
| EvStop.                               (* the holder of the handle calls [clearInterval(handle)] *)

(** What the session does, as seen from outside. *)
Inductive Obs :=
| ObsFetch (k : nat) (id : N)           (* tick k called [getDisaster(id)] *)
| ObsUpdate (k : nat) (data : Disaster) (* tick k called [onUpdate(data)] *)
| ObsError (k : nat)                    (* tick k's [catch] called [console.error] *)
| ObsClear (k : nat)                    (* tick k called [clearInterval(interval)] *)
| ObsStop.                              (* [clearInterval(handle)] from outside *)

Global Instance Obs_eq_dec : EqDecision Obs.
Proof. solve_decision. Defined.

Section Session.
Context {UI : Type}.

(** A poll session: the arguments captured by the interval callback,
    the closure variable [attempts], the interval timer, and what the
    runtime keeps for the session. *)
Record Poll := mkPoll {
  disasterId : N;
  onUpdate : Disaster → UI → Completion UI;
  maxAttempts : Z;
  attempts : nat;            (* [let attempts] *)
  interval : bool;           (* the timer behind [interval] is still registered *)
  started : N;               (* time of the [setInterval] call *)
  clock : N;                 (* current time *)
  inflight : list nat;       (* ticks suspended at [await getDisaster(...)] *)
  ui : UI;                   (* state the sink acts on *)
  trace : list (N * Obs)     (* timestamped observations, oldest first *)
}.

(** [pollDisasterAnalysis(disasterId, onUpdate, maxAttempts = 20)] called
    at time [now]: registers the interval and returns the handle.  The
    body of the callback does not run here. *)
Definition pollDisasterAnalysis (disasterId : N)
    (onUpdate : Disaster → UI → Completion UI) (maxAttempts : option Z)
    (now : N) (ui0 : UI) : Poll :=
  {| disasterId := disasterId; onUpdate := onUpdate;
     maxAttempts := default DEFAULT_MAX_ATTEMPTS maxAttempts;
     attempts := 0; interval := true; started := now; clock := now;
     inflight := []; ui := ui0; trace := [] |}.

(** Earliest time the runtime may run the next tick: timers never fire
    early, and the [k]-th run is due [k] periods after registration. *)
Definition due (p : Poll) : N :=
  (started p + INTERVAL_MS * N.of_nat (S (attempts p)))%N.

Definition observe (p : Poll) (os : list Obs) : list (N * Obs) :=
  trace p ++ ((λ o, (clock p, o)) <$> os).

Definition settle (k : nat) (p : Poll) : list nat :=
  filter (λ j, j ≠ k) (inflight p).

(** The callback up to its [await]: [attempts++], then the request. *)
Definition tick (p : Poll) : Poll :=
  let k := S (attempts p) in
  {| disasterId := disasterId p; onUpdate := onUpdate p;
     maxAttempts := maxAttempts p;
     attempts := k; interval := interval p; started := started p;
     clock := clock p; inflight := inflight p ++ [k]; ui := ui p;
     trace := observe p [ObsFetch k (disasterId p)] |}.

(** The [catch] block: log, then clear the interval.  [seen] is what the
    [try] block did before it threw and [ui'] the state it left. *)
Definition catch (k : nat) (seen : list Obs) (ui' : UI) (p : Poll) : Poll :=
  {| disasterId := disasterId p; onUpdate := onUpdate p;
     maxAttempts := maxAttempts p;
     attempts := attempts p; interval := false; started := started p;
     clock := clock p; inflight := settle k p; ui := ui';
     trace := observe p (seen ++ [ObsError k; ObsClear k]) |}.

(** [disaster.status === 'analyzed' || attempts >= maxAttempts] *)
Definition finished (disaster : Disaster) (p : Poll) : bool :=
  is_analyzed disaster || bool_decide (maxAttempts p ≤ Z.of_nat (attempts p))%Z.

(** The callback after its [await], when the promise fulfilled. *)
Definition resume (k : nat) (disaster : Disaster) (p : Poll) : Poll :=
  match onUpdate p disaster (ui p) with
  | Throw ui' => catch k [ObsUpdate k disaster] ui' p
  | Normal ui' =>
      if finished disaster p
      then {| disasterId := disasterId p; onUpdate := onUpdate p;
              maxAttempts := maxAttempts p;
              attempts := attempts p; interval := false; started := started p;
              clock := clock p; inflight := settle k p; ui := ui';
              trace := observe p [ObsUpdate k disaster; ObsClear k] |}
      else {| disasterId := disasterId p; onUpdate := onUpdate p;
              maxAttempts := maxAttempts p;
              attempts := attempts p; interval := interval p; started := started p;
              clock := clock p; inflight := settle k p; ui := ui';
              trace := observe p [ObsUpdate k disaster] |}
  end.

(** [clearInterval(handle)] by whoever holds the returned handle.  The
    module exports no operation of its own to end a session: the handle
    is the interval id, and clearing it is what a holder can do with it. *)
Definition stop (p : Poll) : Poll :=
  {| disasterId := disasterId p; onUpdate := onUpdate p;
     maxAttempts := maxAttempts p;
     attempts := attempts p; interval := false; started := started p;
     clock := clock p; inflight := inflight p; ui := ui p;
     trace := observe p [ObsStop] |}.

(** Code outside the session changes the state the sink shares with it. *)
Definition with_ui (f : UI → UI) (p : Poll) : Poll :=
  {| disasterId := disasterId p; onUpdate := onUpdate p;
     maxAttempts := maxAttempts p;
     attempts := attempts p; interval := interval p; started := started p;
     clock := clock p; inflight := inflight p; ui := f (ui p);
     trace := trace p |}.

Definition elapse (ms : N) (p : Poll) : Poll :=
  {| disasterId := disasterId p; onUpdate := onUpdate p;
     maxAttempts := maxAttempts p;
     attempts := attempts p; interval := interval p; started := started p;
     clock := (clock p + ms)%N; inflight := inflight p; ui := ui p;
     trace := trace p |}.

(** One job of the event loop; [None] when the runtime cannot run it:
    a cleared or not yet due timer does not fire, and only a pending
    promise settles. *)
Definition step (p : Poll) (e : Event) : option Poll :=
  match e with
  | EvElapse ms => Some (elapse ms p)
  | EvTimer =>
      if interval p && bool_decide (due p ≤ clock p)%N
      then Some (tick p) else None
  | EvFulfil k disaster =>
      if bool_decide (k ∈ inflight p) then Some (resume k disaster p) else None
  | EvReject k =>
      if bool_decide (k ∈ inflight p) then Some (catch k [] (ui p) p) else None
  | EvStop => Some (stop p)
  end.

Fixpoint run (p : Poll) (es : list Event) : option Poll :=
  match es with
  | [] => Some p
  | e :: es' =>
      match step p e with
      | Some p' => run p' es'
      | None => None
      end
  end.

(** *** Reading a trace *)

Definition is_update (o : Obs) : bool :=
  match o with ObsUpdate _ _ => true | _ => false end.

Definition is_fetch (o : Obs) : bool :=
  match o with ObsFetch _ _ => true | _ => false end.

(** Number of [onUpdate] invocations in a trace. *)
Definition count_updates (t : list (N * Obs)) : nat :=
  length (filter (λ x, is_update x.2 = true) t).

(** Number of [getDisaster] requests in a trace. *)
Definition count_fetches (t : list (N * Obs)) : nat :=
  length (filter (λ x, is_fetch x.2 = true) t).

Definition calls (p : Poll) : nat := count_updates (trace p).
Definition fetches (p : Poll) : nat := count_fetches (trace p).

(** The snapshots handed to the sink, oldest first, each with its tick. *)
Definition deliveries (t : list (N * Obs)) : list (nat * Disaster) :=
  omap (λ x, match x.2 with ObsUpdate k d => Some (k, d) | _ => None end) t.

Definition delivered (p : Poll) : list (nat * Disaster) := deliveries (trace p).

(** A schedule in which ticks do not overlap: whenever the timer fires,
    no earlier tick is still waiting for its response. *)
Fixpoint sequential (p : Poll) (es : list Event) : bool :=
  match es with
  | [] => true
  | e :: es' =>
      match step p e with
      | Some p' =>
          match e with
          | EvTimer => bool_decide (inflight p = [])
          | _ => true
          end && sequential p' es'
      | None => false
      end
  end.

End Session.

Arguments Poll UI : clear implicits.

End Poller.

(** ** The [App] component: submitting a report *)

Module App.

(** The [draft] state object of the new-incident form. *)
Record Draft := mkDraft {
  location : string;
  description : string;
  predicted : string;
  confidence : string;
  keywords : string
}.

Definition emptyDraft : Draft :=
  {| location := ""; description := ""; predicted := "";
     confidence := ""; keywords := "" |}.

(** The hooks of [App] that the submission workflow reads or writes, and
    the requests the component has handed to the [api] module. *)
Record State := mkState {
  view : string;
  saved : bool;
  draft : Draft;
  activeDisasters : list Disaster;
  submitting : bool;
  submitError : string;
  analysisResult : option Disaster;
  analyzing : bool;
  net : list Request             (* requests issued, oldest first *)
}.

Definition setView (v : string) (a : State) : State :=
  {| view := v; saved := saved a; draft := draft a;
     activeDisasters := activeDisasters a; submitting := submitting a;
     submitError := submitError a; analysisResult := analysisResult a;
     analyzing := analyzing a; net := net a |}.

Definition setDraft (d : Draft) (a : State) : State :=
  {| view := view a; saved := saved a; draft := d;
     activeDisasters := activeDisasters a; submitting := submitting a;
     submitError := submitError a; analysisResult := analysisResult a;
     analyzing := analyzing a; net := net a |}.

Definition setSubmitting (b : bool) (a : State) : State :=
  {| view := view a; saved := saved a; draft := draft a;
     activeDisasters := activeDisasters a; submitting := b;
     submitError := submitError a; analysisResult := analysisResult a;
     analyzing := analyzing a; net := net a |}.

Definition setSubmitError (msg : string) (a : State) : State :=
  {| view := view a; saved := saved a; draft := draft a;
     activeDisasters := activeDisasters a; submitting := submitting a;
     submitError := msg; analysisResult := analysisResult a;
     analyzing := analyzing a; net := net a |}.

Definition setAnalysisResult (r : option Disaster) (a : State) : State :=
  {| view := view a; saved := saved a; draft := draft a;
     activeDisasters := activeDisasters a; submitting := submitting a;
     submitError := submitError a; analysisResult := r;
     analyzing := analyzing a; net := net a |}.

Definition setAnalyzing (b : bool) (a : State) : State :=
  {| view := view a; saved := saved a; draft := draft a;
     activeDisasters := activeDisasters a; submitting := submitting a;
     submitError := submitError a; analysisResult := analysisResult a;
     analyzing := b; net := net a |}.

Definition setActiveDisasters (l : list Disaster) (a : State) : State :=
  {| view := view a; saved := saved a; draft := draft a;
     activeDisasters := l; submitting := submitting a;
     submitError := submitError a; analysisResult := analysisResult a;
     analyzing := analyzing a; net := net a |}.

(** The hooks as [useState] initialises them. *)
Definition initial : State :=
  {| view := "country"; saved := false; draft := emptyDraft;
     activeDisasters := []; submitting := false; submitError := "";
     analysisResult := None; analyzing := false; net := [] |}.

(** The form as it stands once the user has opened it and typed [d]. *)
Definition typed (d : Draft) : State := setDraft d (setView "new" initial).

(** Handing a request to axios. *)
Definition send (r : Request) (a : State) : State :=
  {| view := view a; saved := saved a; draft := draft a;
     activeDisasters := activeDisasters a; submitting := submitting a;
     submitError := submitError a; analysisResult := analysisResult a;
     analyzing := analyzing a; net := net a ++ [r] |}.

(** [fetchActiveDisasters], up to its [await]. *)
Definition fetchActiveDisasters (a : State) : State := send getActiveDisasters a.

(** [fetchActiveDisasters] after its [await], when the request fulfilled
    with [response.data = data]; a rejection is only logged. *)
Definition fetchActiveDisasters_fulfilled (data : list Disaster) (a : State) : State :=
  setActiveDisasters data a.

Definition resetDraft (a : State) : State :=
  setSubmitError "" (setDraft emptyDraft a).

(** The object literal passed to [reportDisaster]. *)
Definition create_body (d : Draft) : gmap string string :=
  {[ "disaster_type" := js_or (predicted d) "fire";
     "address" := location d;
     "description" := description d ]}.

(** [handleSubmit] up to its [await]: the location check, then the three
    setters and the create request.  The second component is the request
    the handler is now waiting for, if any. *)
Definition handleSubmit (a : State) : State * option Request :=
  if negb (truthy (location (draft a))) then
    (setSubmitError "Please enter a location." a, None)
  else
    let a := setSubmitting true a in
    let a := setSubmitError "" a in
    let a := setAnalysisResult None a in
    let r := reportDisaster (create_body (draft a)) in
    (send r a, Some r).

(** The arrow function [handleSubmit] passes to [pollDisasterAnalysis]. *)
Definition handleSubmit_onUpdate (disaster : Disaster) (a : State) : Completion State :=
  let a := setAnalysisResult (Some disaster) a in
  if is_analyzed disaster
  then Normal (fetchActiveDisasters (setAnalyzing false a))
  else Normal a.

(** [handleSubmit] after its [await], when the create request fulfilled
    with [response.data.disaster_id = disaster_id], [finally] included. *)
Definition handleSubmit_fulfilled (disaster_id : N) (now : N) (a : State)
    : Poller.Poll State :=
  let a := setAnalyzing true a in
  let a := resetDraft a in
  let a := setView "analysis" a in
  let p := Poller.pollDisasterAnalysis disaster_id handleSubmit_onUpdate None now a in
  Poller.with_ui (setSubmitting false) p.

(** [handleSubmit] after its [await], when the create request rejected:
    [catch], then [finally]. *)
Definition handleSubmit_rejected (a : State) : State :=
  setSubmitting false
    (setSubmitError "Failed to report incident. Is the backend running?" a).

End App.

(** ** Well-formed sessions *)

Section Reading.
Import Poller.
Context {UI : Type}.

(** The tick an observation belongs to. *)
Definition tick_of (o : Obs) : option nat :=
  match o with
  | ObsFetch k _ | ObsUpdate k _ | ObsError k | ObsClear k => Some k
  | ObsStop => None
  end.

(** What holds of every state a session can be in. *)
Record wf (p : Poll UI) : Prop := {
  wf_clock : (started p + INTERVAL_MS * N.of_nat (attempts p) ≤ clock p)%N;
  wf_inflight : ∀ k, k ∈ inflight p → 1 ≤ k ≤ attempts p;
  wf_nodup : NoDup (inflight p);
  wf_calls : calls p + length (inflight p) ≤ attempts p;
  wf_fetches : fetches p = attempts p;
  wf_times : ∀ t o k, (t, o) ∈ trace p → tick_of o = Some k →
    1 ≤ k ≤ attempts p ∧ (started p + INTERVAL_MS * N.of_nat k ≤ t)%N;
  wf_pending : ∀ t k d, (t, ObsUpdate k d) ∈ trace p → k ∉ inflight p
}.

End Reading.

(** ** Ordering of ticks and deliveries *)

Section Ordering.
Import Poller.
Context {UI : Type}.

(** Tick N+1 starts its request only after tick N handed its snapshot
    to the sink. *)
Definition in_tick_order (tr : list (N * Obs)) : Prop :=
  ∀ i t k id, tr !! i = Some (t, ObsFetch (S (S k)) id) →
    ∃ j t' d, j < i ∧ tr !! j = Some (t', ObsUpdate (S k) d).

(** No later tick exists once a tick delivered an analyzed snapshot. *)
Definition stops_at_analyzed (p : Poll UI) : Prop :=
  ∀ t k d, (t, ObsUpdate k d) ∈ trace p → is_analyzed d = true →
    ∀ t' id, (t', ObsFetch (S k) id) ∉ trace p.

(** No later tick exists once the request of a tick below the budget
    failed. *)
Definition halts_on_failure (p : Poll UI) : Prop :=
  ∀ t k, (t, ObsError k) ∈ trace p → (Z.of_nat k < maxAttempts p)%Z →
    ∀ j t' id, k < j → (t', ObsFetch j id) ∉ trace p.

(** The sink is not invoked after the handle was cleared from outside. *)
Definition silent_after_stop (p : Poll UI) : Prop :=
  ∀ i j t t' o, trace p !! i = Some (t, ObsStop) → i < j →
    trace p !! j = Some (t', o) → is_update o = false.

(** What holds in addition while ticks do not overlap. *)
Record seq_inv (p : Poll UI) : Prop := {
  sq_inflight : inflight p = [] ∨ inflight p = [attempts p];
  sq_order : in_tick_order (trace p);
  sq_sorted : StronglySorted lt ((delivered p).*1);
  sq_last : interval p = true → inflight p = [] → 1 ≤ attempts p →
    ∃ t d, (t, ObsUpdate (attempts p) d) ∈ trace p;
  sq_budget : attempts p ≤ 1 ∨ (Z.of_nat (attempts p) ≤ maxAttempts p)%Z;
  sq_room : interval p = true → inflight p = [] →
    attempts p = 0 ∨ (Z.of_nat (attempts p) < maxAttempts p)%Z
}.

End Ordering.

(** ** Sample data and schedules *)

Definition snapshot (status : string) : Disaster :=
  {[ "id" := JNum 7; "disaster_type" := JStr "fire";
     "address" := JStr "123 Main St"; "status" := JStr status ]}.

(** A sink that only counts its invocations. *)
Definition counting_sink (_ : Disaster) (n : nat) : Completion nat := Normal (S n).

(** A session on report 7 with the default budget, started at time 0. *)
Definition session7 : Poller.Poll nat :=
  Poller.pollDisasterAnalysis 7 counting_sink None 0 0.

(** The backend answers each request before the timer fires again, always
    with status "analyzing". *)
Definition steady (n : nat) : list Poller.Event :=
  mjoin ((λ k, [Poller.EvElapse INTERVAL_MS; Poller.EvTimer;
                Poller.EvFulfil k (snapshot "analyzing")]) <$> seq 1 n).

(** The backend is slow: [n] ticks fire before the first response comes
    back, then every request is answered with status "analyzing". *)
Definition slow_network (n : nat) : list Poller.Event :=
  mjoin (replicate n [Poller.EvElapse INTERVAL_MS; Poller.EvTimer]) ++
  ((λ k, Poller.EvFulfil k (snapshot "analyzing")) <$> seq 1 n).

(** ** Requests, replay and schedules without failure *)

Section Replay.
Import Poller.
Context {UI : Type}.

(** The requests in a trace, oldest first, each with its tick. *)
Definition requests (t : list (N * Obs)) : list (nat * N) :=
  omap (λ x, match x.2 with ObsFetch k id => Some (k, id) | _ => None end) t.

(** Handing snapshots to a sink one after the other, each call starting
    from the state the previous one left, thrown or not. *)
Definition replay (f : Disaster → UI → Completion UI) (ui0 : UI)
    (l : list (nat * Disaster)) : UI :=
  foldl (λ u kd, outcome (f kd.2 u)) ui0 l.

(** Every snapshot handed to the sink answers a request for [id] issued
    earlier by the same tick. *)
Definition requested_first (id : N) (tr : list (N * Obs)) : Prop :=
  ∀ i t k d, tr !! i = Some (t, ObsUpdate k d) →
    ∃ j t', j < i ∧ tr !! j = Some (t', ObsFetch k id).

(** A job that gives the callback no reason to stop but the budget: no
    rejection, no analyzed snapshot, and the handle is left alone. *)
Definition keeps_polling (e : Event) : bool :=
  match e with
  | EvFulfil _ disaster => negb (is_analyzed disaster)
  | EvReject _ | EvStop => false
  | EvElapse _ | EvTimer => true
  end.

End Replay.

(** ** The [App] component: the form and the resource popup *)

Module Form.
Import App.

Definition setSaved (b : bool) (a : State) : State :=
  {| view := view a; saved := b; draft := draft a;
     activeDisasters := activeDisasters a; submitting := submitting a;
     submitError := submitError a; analysisResult := analysisResult a;
     analyzing := analyzing a; net := net a |}.

(** [draft[field]] for the five fields of the form; any other key reads
    [undefined]. *)
Definition read (field : string) (d : Draft) : option string :=
  if decide (field = "location") then Some (location d)
  else if decide (field = "description") then Some (description d)
  else if decide (field = "predicted") then Some (predicted d)
  else if decide (field = "confidence") then Some (confidence d)
  else if decide (field = "keywords") then Some (keywords d)
  else None.

(** [{ ...draft, [field]: value }] on the five fields of the form.  Another
    key would add a property that nothing in the component reads. *)
Definition assign (field value : string) (d : Draft) : Draft :=
  if decide (field = "location") then
    mkDraft value (description d) (predicted d) (confidence d) (keywords d)
  else if decide (field = "description") then
    mkDraft (location d) value (predicted d) (confidence d) (keywords d)
  else if decide (field = "predicted") then
    mkDraft (location d) (description d) value (confidence d) (keywords d)
  else if decide (field = "confidence") then
    mkDraft (location d) (description d) (predicted d) value (keywords d)
  else if decide (field = "keywords") then
    mkDraft (location d) (description d) (predicted d) (confidence d) value
  else d.

Definition updateDraft (field value : string) (a : State) : State :=
  setSaved false (setDraft (assign field value (draft a)) a).

(** [onClick] of the Close button of the form. *)
Definition onClose (a : State) : State :=
  let a' := if negb (saved a) then resetDraft a else a in
  setView "country" (setSaved false a').

(** [onClick] of the Save Draft button: the new state and the text of the
    alert it shows. *)
Definition onSaveDraft (a : State) : State * string :=
  (setSaved true a, "Draft saved successfully!").

(** The [resourceFields] hook: per resource, the fields of its popup. *)
Abbreviation ResourceFields := (gmap string (gmap string string)).

Definition blankFields : gmap string string :=
  {[ "total" := ""; "nearestWithin100m" := ""; "estimatedResponseTime" := "" ]}.

Definition initialResourceFields : ResourceFields :=
  {[ "Fire Trucks" := blankFields; "Ambulances" := blankFields;
     "Police Units" := blankFields; "Others" := blankFields ]}.

(** The updater [updateResourceField] passes to [setResourceFields];
    spreading the [undefined] of a missing resource yields the empty
    object. *)
Definition updateResourceField (resource field value : string)
    (prev : ResourceFields) : ResourceFields :=
  <[resource := <[field := value]> (default ∅ (prev !! resource))]> prev.

(** [resourceFields[resource][field]] as the popup reads it: [None] is the
    [TypeError] of reading a field off a missing resource, [Some None] the
    [undefined] of a missing field. *)
Definition readResourceField (resource field : string)
    (fields : ResourceFields) : option (option string) :=
  (λ r : gmap string string, r !! field) <$> fields !! resource.

End Form.

(** ** Responses and a backend that is slow to answer *)

Section Schedules.
Import Poller.

(** The responses that come back fulfilled in a schedule, oldest first,
    each with the tick it answers. *)
Definition responses (es : list Event) : list (nat * Disaster) :=
  omap (λ e, match e with EvFulfil k d => Some (k, d) | _ => None end) es.

(** The backend does not answer: the timer fires [n] times, one period
    apart, and no promise settles. *)
Definition unanswered (n : nat) : list Event :=
  mjoin (replicate n [EvElapse INTERVAL_MS; EvTimer]).

(** The responses to ticks [1..n] come back in the order of the requests,
    all with the same snapshot. *)
Definition answers (n : nat) (disaster : Disaster) : list Event :=
  (λ k, EvFulfil k disaster) <$> seq 1 n.

End Schedules.

(** A sink that counts its invocations and throws each time. *)
Definition failing_sink (_ : Disaster) (n : nat) : Completion nat := Throw (S n).

(** * Properties of the poll session *)

Import Poller.

Lemma count_updates_app (t1 t2 : list (N * Obs)) :
  count_updates (t1 ++ t2) = count_updates t1 + count_updates t2.
Proof. unfold count_updates. by rewrite filter_app, length_app. Qed.

Lemma count_fetches_app (t1 t2 : list (N * Obs)) :
  count_fetches (t1 ++ t2) = count_fetches t1 + count_fetches t2.
Proof. unfold count_fetches. by rewrite filter_app, length_app. Qed.

(** Case analysis on one job: the event, the guards of [step] and the
    branches of [resume]. *)
Ltac step_cases H :=
  match type of H with
  | step ?p ?e = Some ?q =>
      destruct e as [ms| |k d|k|]; simpl in H;
      [ | destruct (interval p) eqn:?; simpl in H;
          [destruct (bool_decide (due p ≤ clock p)%N) eqn:?; simpl in H|]
        | destruct (bool_decide (k ∈ inflight p)) eqn:?; simpl in H;
          [unfold resume in H;
           destruct (onUpdate p d (ui p)) eqn:?;
           [destruct (finished d p) eqn:?|]|]
        | destruct (bool_decide (k ∈ inflight p)) eqn:?; simpl in H
        | ];
      try discriminate H;
      injection H as <-
  end.

Ltac fulfil_cases H :=
  match type of H with
  | step ?p (EvFulfil ?k ?d) = Some ?q =>
      simpl in H;
      destruct (bool_decide (k ∈ inflight p)) eqn:?; simpl in H;
      [|discriminate H];
      unfold resume in H;
      destruct (onUpdate p d (ui p)) eqn:?;
      [destruct (finished d p) eqn:?|];
      injection H as <-
  end.

Ltac trace_counts :=
  unfold calls, fetches, catch, stop, tick, elapse; simpl;
  unfold observe; simpl;
  rewrite ?count_updates_app, ?count_fetches_app;
  unfold count_updates, count_fetches; simpl.

Section PollerFacts.
Context {UI : Type}.
Implicit Types (p : Poll UI) (e : Event) (es : list Event).

Lemma run_app p es1 es2 :
  run p (es1 ++ es2) = run p es1 ≫= λ p', run p' es2.
Proof.
  revert p. induction es1 as [|e es1 IH]; intros p; simpl; [done|].
  destruct (step p e); simpl; auto.
Qed.

Lemma run_app_Some p es1 es2 p2 :
  run p (es1 ++ es2) = Some p2 →
  ∃ p1, run p es1 = Some p1 ∧ run p1 es2 = Some p2.
Proof.
  rewrite run_app. destruct (run p es1) as [p1|]; simpl; [eauto|done].
Qed.

(** An invariant of [step] holds along every schedule. *)
Lemma run_invariant (P : Poll UI → Prop) :
  (∀ p e p', P p → step p e = Some p' → P p') →
  ∀ es p p', P p → run p es = Some p' → P p'.
Proof.
  intros Hstep. induction es as [|e es IH]; intros p p' HP Hrun; simpl in Hrun.
  - by simplify_eq.
  - destruct (step p e) as [p1|] eqn:E; [|done]. eauto.
Qed.

Lemma settle_length k p :
  k ∈ inflight p → length (settle k p) < length (inflight p).
Proof.
  unfold settle. induction (inflight p) as [|j l IH]; intros Hk.
  - by apply elem_of_nil in Hk.
  - rewrite filter_cons. destruct (decide (j ≠ k)) as [Hne|Heq]; simpl.
    + apply elem_of_cons in Hk as [->|Hk]; [done|]. specialize (IH Hk). lia.
    + pose proof (length_filter (λ j, j ≠ k) l). lia.
Qed.

(** The captured arguments and the registration time never change. *)
Lemma step_closure p e p' :
  step p e = Some p' →
  disasterId p' = disasterId p ∧ onUpdate p' = onUpdate p ∧
  maxAttempts p' = maxAttempts p ∧ started p' = started p.
Proof. intros H. step_cases H; simpl; auto. Qed.

Lemma run_closure es p p' :
  run p es = Some p' →
  disasterId p' = disasterId p ∧ onUpdate p' = onUpdate p ∧
  maxAttempts p' = maxAttempts p ∧ started p' = started p.
Proof.
  apply (run_invariant (λ q, disasterId q = disasterId p ∧
    onUpdate q = onUpdate p ∧ maxAttempts q = maxAttempts p ∧
    started q = started p)); [|done].
  intros q e q' (? & ? & ? & ?) (? & ? & ? & ?)%step_closure.
  repeat split; congruence.
Qed.

(** Every job appends to the trace. *)
Lemma step_trace p e p' :
  step p e = Some p' → ∃ os, trace p' = observe p os.
Proof.
  intros H. step_cases H; simpl; try (eexists; reflexivity).
  exists []. unfold observe. simpl. by rewrite app_nil_r.
Qed.

(** *** After [clearInterval] *)

(** Once the interval is cleared the timer never fires again: the
    remaining jobs only settle requests that were already in flight. *)
Lemma cleared_step p e p' :
  interval p = false → step p e = Some p' →
  e ≠ EvTimer ∧ interval p' = false ∧ attempts p' = attempts p ∧
  fetches p' = fetches p ∧
  calls p' + length (inflight p') ≤ calls p + length (inflight p) ∧
  (inflight p = [] → inflight p' = [] ∧ ui p' = ui p ∧ calls p' = calls p).
Proof.
  intros Hc H. step_cases H; simpl; try congruence;
    repeat match goal with
    | E : bool_decide _ = true |- _ => apply bool_decide_eq_true in E
    end;
    try (pose proof (settle_length k p ltac:(assumption)));
    (split; [done|]); (split; [done|]); (split; [done|]);
    (split; [trace_counts; lia|]);
    (split; [trace_counts; lia|]);
    intros Hnil;
    try (rewrite Hnil in *; exfalso; eapply not_elem_of_nil; eassumption);
    (split; [done|]); (split; [done|trace_counts; lia]).
Qed.

Lemma cleared_run es : ∀ p p',
  interval p = false → run p es = Some p' →
  (EvTimer ∉ es) ∧ interval p' = false ∧ attempts p' = attempts p ∧
  fetches p' = fetches p ∧
  calls p' + length (inflight p') ≤ calls p + length (inflight p) ∧
  (inflight p = [] → inflight p' = [] ∧ ui p' = ui p ∧ calls p' = calls p).
Proof.
  induction es as [|e es IH]; intros p p' Hc Hrun; simpl in Hrun.
  - simplify_eq. repeat split; auto using not_elem_of_nil.
  - destruct (step p e) as [p1|] eqn:E; [|done].
    destruct (cleared_step _ _ _ Hc E) as (Hne & Hc1 & Ha & Hf & Hle & Hnil).
    destruct (IH _ _ Hc1 Hrun) as (Hnot & Hc' & Ha' & Hf' & Hle' & Hnil').
    split; [by apply not_elem_of_cons|].
    split; [done|]. split; [congruence|]. split; [congruence|].
    split; [lia|]. intros H0. destruct (Hnil H0) as (H1 & H2 & H3).
    destruct (Hnil' H1) as (? & ? & ?). repeat split; congruence.
Qed.

(** *** Reachable states are well formed *)

Lemma elem_of_observe p os t o :
  (t, o) ∈ observe p os ↔ (t, o) ∈ trace p ∨ (t = clock p ∧ o ∈ os).
Proof.
  unfold observe. rewrite elem_of_app, list_elem_of_fmap.
  split; intros [H|H]; auto.
  - destruct H as (o' & [= -> ->] & Ho). auto.
  - destruct H as [-> Ho]. right. by exists o.
Qed.

Lemma elem_of_settle j k p : j ∈ settle k p ↔ j ∈ inflight p ∧ j ≠ k.
Proof. unfold settle. rewrite list_elem_of_filter. tauto. Qed.

Lemma wf_start id f m now (ui0 : UI) : wf (pollDisasterAnalysis id f m now ui0).
Proof.
  constructor; simpl; try done.
  - unfold INTERVAL_MS. lia.
  - intros k Hk. by apply elem_of_nil in Hk.
  - constructor.
  - intros t o k Hin. by apply elem_of_nil in Hin.
  - intros t k d Hin. by apply elem_of_nil in Hin.
Qed.

Lemma filter_ne_notin (k : nat) (l : list nat) :
  k ∉ l → filter (λ j, j ≠ k) l = l.
Proof.
  induction l as [|x l IH]; [done|].
  intros [Hx Hl]%not_elem_of_cons. rewrite filter_cons.
  destruct (decide (x ≠ k)) as [_|Heq]; [by rewrite IH|].
  by apply dec_stable in Heq as ->.
Qed.

Lemma filter_ne_length (k : nat) (l : list nat) :
  NoDup l → k ∈ l → S (length (filter (λ j, j ≠ k) l)) = length l.
Proof.
  induction l as [|x l IH]; intros Hnd Hk.
  - by apply elem_of_nil in Hk.
  - apply NoDup_cons in Hnd as [Hx Hnd]. rewrite filter_cons.
    destruct (decide (x ≠ k)) as [Hne|Heq]; simpl.
    + apply elem_of_cons in Hk as [->|Hk]; [done|]. by rewrite IH.
    + apply dec_stable in Heq as ->. by rewrite filter_ne_notin.
Qed.

Lemma wf_settle p k :
  wf p → k ∈ inflight p →
  NoDup (settle k p) ∧ (∀ j, j ∈ settle k p → 1 ≤ j ≤ attempts p) ∧
  S (length (settle k p)) = length (inflight p).
Proof.
  intros W Hk. split; [|split].
  - apply NoDup_filter, W.
  - intros j [Hj _]%elem_of_settle. by apply W.
  - apply filter_ne_length; [apply W|done].
Qed.

(** A tick that resumes after its [await] leaves the flight list and
    only adds observations of its own. *)
Lemma wf_settled p p' k os :
  wf p → k ∈ inflight p →
  attempts p' = attempts p → started p' = started p → clock p' = clock p →
  inflight p' = settle k p → trace p' = observe p os →
  (∀ o, o ∈ os → tick_of o = Some k) →
  count_updates ((λ o, (clock p, o)) <$> os) ≤ 1 →
  count_fetches ((λ o, (clock p, o)) <$> os) = 0 →
  wf p'.
Proof.
  intros W Hk Ha Hs Hc Hi Ht Hos Hu Hf.
  destruct (wf_settle p k W Hk) as (Hnd & Hrange & Hlen).
  pose proof (wf_inflight _ W k Hk) as Hkr.
  pose proof (wf_clock _ W) as Hclock.
  constructor; rewrite ?Ha, ?Hs, ?Hc, ?Hi; try done.
  - pose proof (wf_calls _ W). unfold calls in *. rewrite Ht. unfold observe.
    rewrite count_updates_app. lia.
  - pose proof (wf_fetches _ W). unfold fetches in *. rewrite Ht. unfold observe.
    rewrite count_fetches_app. lia.
  - intros t o j. rewrite Ht, elem_of_observe. intros [Hin|[-> Ho]] Hj.
    + by apply (wf_times _ W t o j).
    + rewrite (Hos o Ho) in Hj. injection Hj as <-. split; [done|].
      unfold INTERVAL_MS in *. lia.
  - intros t j d. rewrite Ht, elem_of_observe, elem_of_settle.
    intros [Hin|[-> Ho]] [Hj Hne].
    + by apply (wf_pending _ W t j d).
    + specialize (Hos _ Ho). simpl in Hos. congruence.
Qed.

Ltac settled_case p k os :=
  eapply (wf_settled p _ k os); try done;
  first
    [ by (unfold count_updates, count_fetches; simpl; lia)
    | let o := fresh "o" in
      let Ho := fresh "Ho" in
      intros o Ho;
      repeat (apply elem_of_cons in Ho as [->|Ho]; [done|]);
      by apply elem_of_nil in Ho ].

Lemma wf_step p e p' : wf p → step p e = Some p' → wf p'.
Proof.
  intros W H. step_cases H;
    repeat match goal with
    | E : bool_decide _ = true |- _ => apply bool_decide_eq_true in E
    end.
  - (* time passes *)
    destruct W. constructor; simpl; try done. lia.
  - (* the timer fires *)
    pose proof (wf_clock _ W) as Hclock. unfold due in *.
    assert (Hfresh : S (attempts p) ∉ inflight p).
    { intros Hin. apply (wf_inflight _ W) in Hin. lia. }
    constructor; simpl.
    + lia.
    + intros k [Hk| ->%list_elem_of_singleton]%elem_of_app; [|lia].
      apply (wf_inflight _ W) in Hk. lia.
    + apply NoDup_app. split; [apply W|]. split; [|apply NoDup_singleton].
      intros k Hk ->%list_elem_of_singleton. done.
    + pose proof (wf_calls _ W). trace_counts. rewrite length_app. simpl.
      unfold calls, count_updates in *. lia.
    + pose proof (wf_fetches _ W). trace_counts.
      unfold fetches, count_fetches in *. lia.
    + intros t o k. rewrite elem_of_observe.
      intros [Hin|[-> ->%list_elem_of_singleton]] Hk.
      * destruct (wf_times _ W t o k Hin Hk). lia.
      * injection Hk as <-. lia.
    + intros t k d. rewrite elem_of_observe.
      intros [Hin|[-> [=]%list_elem_of_singleton]].
      destruct (wf_times _ W t _ k Hin eq_refl) as [Hk _].
      intros [Hk'| ->%list_elem_of_singleton]%elem_of_app; [|lia].
      by apply (wf_pending _ W t k d).
  - (* fulfilled, the stop condition holds *)
    by settled_case p k [ObsUpdate k d; ObsClear k].
  - (* fulfilled, polling goes on *)
    by settled_case p k [ObsUpdate k d].
  - (* fulfilled, the sink threw *)
    by settled_case p k [ObsUpdate k d; ObsError k; ObsClear k].
  - (* rejected *)
    by settled_case p k [ObsError k; ObsClear k].
  - (* cleared from outside *)
    pose proof W as []. constructor; simpl; try done.
    + pose proof (wf_calls _ W). trace_counts.
      unfold calls, count_updates in *. lia.
    + pose proof (wf_fetches _ W). trace_counts.
      unfold fetches, count_fetches in *. lia.
    + intros t o k. rewrite elem_of_observe.
      intros [Hin|[-> ->%list_elem_of_singleton]] Hk; [|done].
      by apply (wf_times _ W t o k).
    + intros t k d. rewrite elem_of_observe.
      intros [Hin|[-> [=]%list_elem_of_singleton]].
      by apply (wf_pending _ W t k d).
Qed.

Lemma wf_run id f m now (ui0 : UI) es p :
  run (pollDisasterAnalysis id f m now ui0) es = Some p → wf p.
Proof. apply run_invariant; [apply wf_step|apply wf_start]. Qed.

(** At most one sink invocation per tick. *)
Lemma calls_le_attempts id f m now (ui0 : UI) es p :
  run (pollDisasterAnalysis id f m now ui0) es = Some p →
  calls p ≤ attempts p ∧ fetches p = attempts p.
Proof.
  intros W%wf_run. pose proof (wf_calls _ W). pose proof (wf_fetches _ W). lia.
Qed.

(** *** Starting a session *)

(** [C10] Starting a session returns the handle without running the
    callback: nothing has been fetched or delivered when
    [pollDisasterAnalysis] returns, the timer cannot fire at that
    instant, and whatever the schedule, no request is issued and no
    snapshot delivered earlier than one period of 3000 ms after the
    start. *)
Theorem start_returns_before_first_tick id f m now (ui0 : UI) :
  let p0 := pollDisasterAnalysis id f m now ui0 in
  INTERVAL_MS = 3000%N ∧
  trace p0 = [] ∧ inflight p0 = [] ∧ ui p0 = ui0 ∧ calls p0 = 0 ∧ fetches p0 = 0 ∧
  step p0 EvTimer = None ∧
  ∀ es p, run p0 es = Some p →
    ∀ t o, (t, o) ∈ trace p → is_fetch o || is_update o = true →
      (now + INTERVAL_MS ≤ t)%N.
Proof.
  simpl. repeat (split; [done|]). split.
  - unfold step, due. simpl. rewrite bool_decide_eq_false_2; [done|].
    unfold INTERVAL_MS. lia.
  - intros es p Hrun t o Hin Ho. pose proof (wf_run _ _ _ _ _ _ _ Hrun) as W.
    assert (∃ k, tick_of o = Some k) as [k Hk].
    { destruct o; simpl in *; try done; eauto. }
    destruct (wf_times _ W t o k Hin Hk) as [Hk1 Ht].
    apply run_closure in Hrun as (_ & _ & _ & Hs). simpl in Hs.
    rewrite Hs in Ht. unfold INTERVAL_MS in *. lia.
Qed.

(** *** Stopping on an analyzed snapshot *)

Lemma analyzed_finished d p : is_analyzed d = true → finished d p = true.
Proof. unfold finished. by intros ->. Qed.

(** [C2] When the response of a tick carries status "analyzed", the
    snapshot is handed to the sink first and the interval is cleared
    right after, in the same job.  From then on the timer never fires:
    no new tick starts and no new request is issued.  If no other
    request is in flight at that moment, the analyzed snapshot is the
    last thing the sink ever receives. *)
Theorem analyzed_delivery_clears_interval p k d p1 :
  step p (EvFulfil k d) = Some p1 → is_analyzed d = true →
  (∃ rest, trace p1 = trace p ++ (clock p, ObsUpdate k d) :: rest ∧
           (clock p, ObsClear k) ∈ rest) ∧
  ui p1 = outcome (onUpdate p d (ui p)) ∧
  interval p1 = false ∧
  ∀ es p2, run p1 es = Some p2 →
    (EvTimer ∉ es) ∧ attempts p2 = attempts p1 ∧ fetches p2 = fetches p1 ∧
    (inflight p1 = [] → ui p2 = ui p1 ∧ calls p2 = calls p1).
Proof.
  intros H Hd. pose proof (analyzed_finished d p Hd) as Hfin.
  assert (interval p1 = false ∧ ui p1 = outcome (onUpdate p d (ui p)) ∧
          ∃ rest, trace p1 = trace p ++ (clock p, ObsUpdate k d) :: rest ∧
                  (clock p, ObsClear k) ∈ rest) as (Hc & Hui & Htr).
  { fulfil_cases H; simpl; try congruence;
      (split; [done|]); (split; [done|]);
      unfold catch, observe; simpl; eexists; (split; [reflexivity|]);
      set_solver. }
  repeat (split; [done|]). intros es p2 Hrun.
  destruct (cleared_run es _ _ Hc Hrun) as (? & ? & ? & ? & ? & Hnil).
  repeat (split; [done|]). intros Hidle. by destruct (Hnil Hidle) as (_ & ? & ?).
Qed.

(** *** A failing request *)

(** A tick that has settled and delivered nothing never delivers. *)
Lemma settled_step j p e p' :
  j ∉ inflight p → j ≤ attempts p → (∀ t d, (t, ObsUpdate j d) ∉ trace p) →
  step p e = Some p' →
  (j ∉ inflight p') ∧ j ≤ attempts p' ∧ ∀ t d, (t, ObsUpdate j d) ∉ trace p'.
Proof.
  intros Hj Hle Hno H. step_cases H; simpl;
    repeat match goal with
    | E : bool_decide _ = true |- _ => apply bool_decide_eq_true in E
    end;
    (split; [rewrite ?elem_of_settle, ?elem_of_app, ?list_elem_of_singleton;
             intros ?; intuition lia|]);
    (split; [lia|]);
    intros t d'; unfold catch, observe; simpl;
    rewrite ?elem_of_app, ?elem_of_cons, ?elem_of_nil;
    intros Hin; try (by eapply Hno);
    (destruct Hin as [Hin|Hin]; [by eapply Hno|]);
    intuition; simplify_eq; auto.
Qed.

Lemma settled_run k es : ∀ p p',
  k ∉ inflight p → k ≤ attempts p → (∀ t d, (t, ObsUpdate k d) ∉ trace p) →
  run p es = Some p' → ∀ t d, (t, ObsUpdate k d) ∉ trace p'.
Proof.
  induction es as [|e es IH]; intros p p' Hk Hle Hno Hrun; simpl in Hrun.
  - by simplify_eq.
  - destruct (step p e) as [p1|] eqn:E; [|done].
    destruct (settled_step k p e p1 Hk Hle Hno E) as (? & ? & ?). eauto.
Qed.

(** [C3] When the request of tick [k] fails, that job does not call the
    sink: it logs the error and clears the interval, and the state the
    sink acts on is left as it was.  The sink is never invoked for tick
    [k], there is no retry, and the timer never fires again, so no new
    tick starts and no new request is issued.  If no other request is in
    flight at that moment, the sink is never invoked again. *)
Theorem failed_fetch_clears_interval id f m now (ui0 : UI) es1 k es2 p :
  run (pollDisasterAnalysis id f m now ui0) (es1 ++ EvReject k :: es2) = Some p →
  ∃ p1 p2,
    run (pollDisasterAnalysis id f m now ui0) es1 = Some p1 ∧
    step p1 (EvReject k) = Some p2 ∧ run p2 es2 = Some p ∧
    ui p2 = ui p1 ∧ calls p2 = calls p1 ∧
    trace p2 = trace p1 ++ [(clock p1, ObsError k); (clock p1, ObsClear k)] ∧
    interval p2 = false ∧
    (EvTimer ∉ es2) ∧ attempts p = attempts p2 ∧ fetches p = fetches p2 ∧
    (∀ t d, (t, ObsUpdate k d) ∉ trace p) ∧
    (inflight p2 = [] → ui p = ui p2 ∧ calls p = calls p2).
Proof.
  intros (p1 & Hrun1 & Hrun2)%run_app_Some. simpl in Hrun2.
  destruct (bool_decide (k ∈ inflight p1)) eqn:Hk; [|done].
  apply bool_decide_eq_true in Hk. simpl in Hrun2.
  pose proof (wf_run _ _ _ _ _ _ _ Hrun1) as W.
  exists p1, (catch k [] (ui p1) p1). split; [done|].
  split; [by simpl; rewrite bool_decide_eq_true_2|]. split; [done|].
  destruct (cleared_run es2 _ _ (eq_refl : interval (catch k [] (ui p1) p1) = false) Hrun2)
    as (Hno & _ & Ha & Hf & _ & Hnil).
  split; [done|]. split; [trace_counts; lia|]. split; [done|].
  split; [done|]. split; [done|]. split; [done|]. split; [done|]. split.
  - eapply (settled_run k es2 (catch k [] (ui p1) p1)); [| | |done]; simpl.
    + rewrite elem_of_settle. tauto.
    + by apply (wf_inflight _ W).
    + intros t d. unfold observe. simpl.
      rewrite elem_of_app, !elem_of_cons, elem_of_nil.
      intros [Hin|[[=]|[[=]|[]]]]. by apply (wf_pending _ W t k d).
  - intros Hidle. by destruct (Hnil Hidle) as (_ & ? & ?).
Qed.

(** *** Clearing the interval from outside *)

(** [C5] After [clearInterval(handle)] the timer never fires again: no
    further tick starts and no new request is issued.  Requests that
    were in flight at that moment are not aborted, and a response that
    arrives for one of them is still handed to the sink; the sink is
    invoked at most once for each of them. *)
Theorem stop_prevents_further_ticks p es p' :
  run p (EvStop :: es) = Some p' →
  (EvTimer ∉ es) ∧ attempts p' = attempts p ∧ fetches p' = fetches p ∧
  calls p' ≤ calls p + length (inflight p) ∧
  ∀ k d, k ∈ inflight p →
    ∃ q, step (stop p) (EvFulfil k d) = Some q ∧ calls q = S (calls p) ∧
         ui q = outcome (onUpdate p d (ui p)) ∧
         (clock p, ObsUpdate k d) ∈ trace q.
Proof.
  simpl. intros Hrun.
  destruct (cleared_run es _ _ (eq_refl : interval (stop p) = false) Hrun)
    as (Hno & _ & Ha & Hf & Hle & _).
  assert (calls (stop p) = calls p) as Hc by (trace_counts; lia).
  assert (fetches (stop p) = fetches p) as Hf' by (trace_counts; lia).
  simpl in *. repeat (split; [first [done|congruence|lia]|]).
  intros k d Hk. eexists. split.
  { simpl. by rewrite bool_decide_eq_true_2. }
  unfold resume. simpl. destruct (onUpdate p d (ui p)) as [u|u]; simpl;
    [destruct (finished d (stop p))|]; simpl;
    (split; [trace_counts; lia|]); (split; [done|]);
    unfold catch, observe; simpl; set_solver.
Qed.

(** *** Sessions whose ticks do not overlap *)

Lemma elem_of_deliveries (tr : list (N * Obs)) k d :
  (k, d) ∈ deliveries tr ↔ ∃ t, (t, ObsUpdate k d) ∈ tr.
Proof.
  unfold deliveries. rewrite list_elem_of_omap. split.
  - intros ([t o] & Hin & Ho). simpl in Ho. destruct o; simplify_eq. eauto.
  - intros [t Hin]. by exists (t, ObsUpdate k d).
Qed.

Lemma deliveries_app (t1 t2 : list (N * Obs)) :
  deliveries (t1 ++ t2) = deliveries t1 ++ deliveries t2.
Proof. apply omap_app. Qed.

Lemma in_tick_order_app (tr new : list (N * Obs)) :
  in_tick_order tr →
  (∀ i t k id, new !! i = Some (t, ObsFetch (S (S k)) id) →
     ∃ t' d, (t', ObsUpdate (S k) d) ∈ tr) →
  in_tick_order (tr ++ new).
Proof.
  intros Hold Hnew i t k id [Hi|[Hlen Hi]]%lookup_app_Some.
  - destruct (Hold i t k id Hi) as (j & t' & d & Hj & Hlk).
    exists j, t', d. split; [done|]. by apply lookup_app_l_Some.
  - destruct (Hnew _ t k id Hi) as (t' & d & [j Hj]%list_elem_of_lookup).
    exists j, t', d. pose proof (lookup_lt_Some _ _ _ Hj).
    split; [lia|]. by apply lookup_app_l_Some.
Qed.

Lemma sorted_snoc (l : list (nat * Disaster)) k d :
  StronglySorted lt (l.*1) → (∀ j d', (j, d') ∈ l → j < k) →
  StronglySorted lt ((l ++ [(k, d)]).*1).
Proof.
  intros Hs Hlt. rewrite fmap_app. apply StronglySorted_app_2; [|done|].
  - intros x1 x2 ([j d'] & -> & Hin)%list_elem_of_fmap Hx2.
    apply list_elem_of_singleton in Hx2 as ->. simpl. eauto.
  - simpl. repeat constructor.
Qed.

Lemma delivered_before p k d :
  wf p → (k, d) ∈ delivered p → k ≤ attempts p ∧ k ∉ inflight p.
Proof.
  intros W [t Hin]%elem_of_deliveries. split.
  - by destruct (wf_times _ W t _ k Hin eq_refl) as [[_ ?] _].
  - by apply (wf_pending _ W t k d).
Qed.

(** The only tick in flight resumes. *)
Lemma seq_settled p p' k os :
  wf p → seq_inv p → k ∈ inflight p →
  attempts p' = attempts p → maxAttempts p' = maxAttempts p →
  inflight p' = settle k p → trace p' = observe p os →
  (∀ o, o ∈ os → is_fetch o = false) →
  (deliveries ((λ o, (clock p, o)) <$> os) = [] ∨
   ∃ d, deliveries ((λ o, (clock p, o)) <$> os) = [(k, d)]) →
  (interval p' = true →
     (∃ d, ObsUpdate k d ∈ os) ∧ (Z.of_nat (attempts p) < maxAttempts p)%Z) →
  seq_inv p'.
Proof.
  intros W Q Hk Ha Hm Hi Ht Hnf Hdel Hlive.
  assert (inflight p = [attempts p] ∧ k = attempts p) as [Hin ->].
  { destruct (sq_inflight _ Q) as [E|E]; rewrite E in Hk.
    - by apply elem_of_nil in Hk.
    - by apply list_elem_of_singleton in Hk as ->. }
  assert (inflight p' = []) as Hidle.
  { rewrite Hi. unfold settle. rewrite Hin, filter_cons.
    by destruct (decide (attempts p ≠ attempts p)). }
  constructor; rewrite ?Ha, ?Hm.
  - by left.
  - rewrite Ht. unfold observe. apply in_tick_order_app; [apply Q|].
    intros i t j id Hlk. apply list_elem_of_lookup_2 in Hlk.
    apply list_elem_of_fmap in Hlk as (o & Heq & Ho). simplify_eq.
    by apply Hnf in Ho.
  - unfold delivered. rewrite Ht. unfold observe. rewrite deliveries_app.
    destruct Hdel as [->|[d ->]].
    + rewrite app_nil_r. apply Q.
    + apply sorted_snoc; [apply Q|]. intros j d' Hj.
      destruct (delivered_before p j d' W Hj) as [Hle Hnot].
      rewrite Hin, list_elem_of_singleton in Hnot. lia.
  - intros Hlive' _ _. destruct (Hlive Hlive') as [[d Hd] _].
    exists (clock p), d. rewrite Ht, elem_of_observe. auto.
  - apply Q.
  - intros Hlive' _. right. by destruct (Hlive Hlive').
Qed.

Lemma seq_step p e p' :
  wf p → seq_inv p → step p e = Some p' →
  (e = EvTimer → inflight p = []) → seq_inv p'.
Proof.
  intros W Q H Hseq. step_cases H;
    repeat match goal with
    | E : bool_decide _ = true |- _ => apply bool_decide_eq_true in E
    end.
  - (* time passes *)
    destruct Q. by constructor.
  - (* the timer fires *)
    specialize (Hseq eq_refl).
    constructor; simpl.
    + right. by rewrite Hseq.
    + unfold observe. apply in_tick_order_app; [apply Q|]. simpl.
      intros i t j id [-> Heq]%list_lookup_singleton_Some.
      injection Heq as _ Hj _. rewrite <- Hj.
      apply (sq_last _ Q); [done|done|lia].
    + unfold delivered, tick, observe. simpl.
      rewrite deliveries_app. simpl. rewrite app_nil_r. apply Q.
    + rewrite Hseq. done.
    + destruct (sq_room _ Q) as [->|]; [done|done|lia|lia].
    + rewrite Hseq. done.
  - (* fulfilled, the stop condition holds *)
    eapply (seq_settled p _ k [ObsUpdate k d; ObsClear k]); eauto; simpl.
    + intros o Ho. repeat (apply elem_of_cons in Ho as [->|Ho]; [done|]).
      by apply elem_of_nil in Ho.
    + done.
  - (* fulfilled, polling goes on *)
    eapply (seq_settled p _ k [ObsUpdate k d]); eauto; simpl.
    + intros o Ho. repeat (apply elem_of_cons in Ho as [->|Ho]; [done|]).
      by apply elem_of_nil in Ho.
    + intros _. split; [exists d; set_solver|].
      unfold finished in *. apply orb_false_iff in Heqb0 as [_ Hb].
      apply bool_decide_eq_false in Hb. lia.
  - (* fulfilled, the sink threw *)
    eapply (seq_settled p _ k [ObsUpdate k d; ObsError k; ObsClear k]); eauto; simpl.
    + intros o Ho. repeat (apply elem_of_cons in Ho as [->|Ho]; [done|]).
      by apply elem_of_nil in Ho.
    + done.
  - (* rejected *)
    eapply (seq_settled p _ k [ObsError k; ObsClear k]); eauto; simpl.
    + intros o Ho. repeat (apply elem_of_cons in Ho as [->|Ho]; [done|]).
      by apply elem_of_nil in Ho.
    + done.
  - (* cleared from outside *)
    constructor; simpl; try done; try apply Q.
    + unfold observe. apply in_tick_order_app; [apply Q|]. simpl.
      intros i t j id [-> [=]]%list_lookup_singleton_Some.
    + unfold delivered, stop, observe. simpl.
      rewrite deliveries_app. simpl. rewrite app_nil_r. apply Q.
Qed.

Lemma seq_start id f m now (ui0 : UI) : seq_inv (pollDisasterAnalysis id f m now ui0).
Proof.
  constructor; simpl; auto.
  - intros i t k id' Hlk. by rewrite lookup_nil in Hlk.
  - constructor.
  - lia.
Qed.

Lemma seq_run es : ∀ p p',
  wf p → seq_inv p → sequential p es = true → run p es = Some p' →
  wf p' ∧ seq_inv p'.
Proof.
  induction es as [|e es IH]; intros p p' W Q Hseq Hrun; simpl in *.
  - by simplify_eq.
  - destruct (step p e) as [p1|] eqn:E; [|done].
    apply andb_true_iff in Hseq as [Hnow Hseq].
    apply (IH p1); [by eapply wf_step|eapply seq_step; eauto|done|done].
    intros ->. by apply bool_decide_eq_true in Hnow.
Qed.

(** One job of the event loop calls the sink at most once. *)
Lemma step_calls p e p' : step p e = Some p' → calls p ≤ calls p' ≤ S (calls p).
Proof. intros H. step_cases H; trace_counts; lia. Qed.

(** [C4] The timer fires on its own cadence, whether or not the previous
    request has settled.  In a session where every request has settled
    by the time the timer fires again, ticks do not overlap: tick N's
    snapshot is handed to the sink before tick N+1 issues its request,
    snapshots reach the sink in strictly increasing tick order, and at
    most one request is in flight.  In every session one job of the
    event loop invokes the sink at most once. *)
Theorem sequential_ticks_deliver_in_order id f m now (ui0 : UI) es p :
  sequential (pollDisasterAnalysis id f m now ui0) es = true →
  run (pollDisasterAnalysis id f m now ui0) es = Some p →
  in_tick_order (trace p) ∧
  StronglySorted lt ((delivered p).*1) ∧
  (inflight p = [] ∨ inflight p = [attempts p]) ∧
  ∀ (q q' : Poll UI) e, step q e = Some q' → calls q' ≤ S (calls q).
Proof.
  intros Hseq Hrun.
  destruct (seq_run es _ _ (wf_start id f m now ui0) (seq_start id f m now ui0)
              Hseq Hrun) as [_ Q].
  split; [apply Q|]. split; [apply Q|]. split; [apply Q|].
  intros q q' e H. by destruct (step_calls q e q' H).
Qed.

(** While ticks do not overlap the budget is respected (a budget below
    one still lets the first tick run). *)
Lemma sequential_within_budget id f m now (ui0 : UI) es p :
  sequential (pollDisasterAnalysis id f m now ui0) es = true →
  run (pollDisasterAnalysis id f m now ui0) es = Some p →
  (Z.of_nat (calls p) ≤ Z.max 1 (maxAttempts p))%Z.
Proof.
  intros Hseq Hrun.
  destruct (seq_run es _ _ (wf_start id f m now ui0) (seq_start id f m now ui0)
              Hseq Hrun) as [W Q].
  pose proof (wf_calls _ W). destruct (sq_budget _ Q); lia.
Qed.

End PollerFacts.

(** ** Concrete sessions *)

Section Scenarios.
Import Poller.

(** Reading a field off the outcome of a closed run. *)
Ltac outcome_of E f v :=
  let H := fresh in
  match type of E with
  | ?r = Some ?p =>
      assert (H : f <$> r = Some v) by (vm_compute; reflexivity);
      rewrite E in H; injection H as H; exact H
  end.

Ltac runs_to p E :=
  match goal with
  | |- context [run ?s ?es] =>
      let H := fresh in
      assert (H : match run s es with Some _ => true | None => false end = true)
        by (vm_compute; reflexivity);
      destruct (run s es) as [p|] eqn:E; [clear H|discriminate H]
  end.

(** Ticks that do not overlap: twenty "analyzing" responses, twenty sink
    invocations, and the interval is cleared by the twentieth. *)
Example steady_session_exhausts_budget :
  sequential session7 (steady 20) = true ∧
  ∃ p, run session7 (steady 20) = Some p ∧
       calls p = 20 ∧ ui p = 20 ∧ attempts p = 20 ∧
       interval p = false ∧ inflight p = [].
Proof.
  split; [vm_compute; reflexivity|].
  runs_to p E. exists p. split; [done|].
  split; [outcome_of E (@calls nat) 20|].
  split; [outcome_of E (@ui nat) 20|].
  split; [outcome_of E (@attempts nat) 20|].
  split; [outcome_of E (@interval nat) false|].
  outcome_of E (@inflight nat) (@nil nat).
Qed.

(** The status advances over three ticks that do not overlap: three sink
    invocations, the interval is cleared, and the timer cannot fire a
    fourth time. *)
Example analyzed_on_third_tick :
  ∃ p, run session7
         [EvElapse 3000; EvTimer; EvFulfil 1 (snapshot "reported");
          EvElapse 3000; EvTimer; EvFulfil 2 (snapshot "analyzing");
          EvElapse 3000; EvTimer; EvFulfil 3 (snapshot "analyzed");
          EvElapse 3000] = Some p ∧
       calls p = 3 ∧ interval p = false ∧ inflight p = [] ∧
       step p EvTimer = None.
Proof.
  runs_to p E. exists p. split; [done|].
  split; [outcome_of E (@calls nat) 3|].
  assert (Hc : interval p = false) by outcome_of E (@interval nat) false.
  split; [done|].
  split; [outcome_of E (@inflight nat) (@nil nat)|].
  simpl. by rewrite Hc.
Qed.

(** The first request fails with nothing else in flight: the sink is never
    invoked and the timer cannot fire again. *)
Example first_fetch_fails :
  ∃ p, run session7 [EvElapse 3000; EvTimer; EvReject 1; EvElapse 3000] = Some p ∧
       calls p = 0 ∧ ui p = 0 ∧ interval p = false ∧
       trace p = [(3000, ObsFetch 1 7); (3000, ObsError 1); (3000, ObsClear 1)]%N ∧
       step p EvTimer = None.
Proof.
  eexists. split; [reflexivity|]. by vm_compute.
Qed.

(** [C1] The budget of a session does not bound the number of sink
    invocations when responses are slow.  With the default budget of 20
    and a backend that answers only after the timer has fired 21 times,
    every fetch succeeds, no snapshot is analyzed, and the sink is
    invoked 21 times. *)
Theorem slow_responses_exceed_maxAttempts :
  ∃ p, run session7 (slow_network 21) = Some p ∧
       maxAttempts p = 20%Z ∧ attempts p = 21 ∧ calls p = 21 ∧ ui p = 21 ∧
       (Z.of_nat (calls p) > maxAttempts p)%Z ∧
       forallb (λ kd, negb (is_analyzed kd.2)) (delivered p) = true ∧
       forallb (λ x, match x.2 with ObsError _ => false | _ => true end)
         (trace p) = true.
Proof.
  runs_to p E. exists p. split; [done|].
  assert (Hm : maxAttempts p = 20%Z) by outcome_of E (@maxAttempts nat) 20%Z.
  assert (Hc : calls p = 21) by outcome_of E (@calls nat) 21.
  split; [done|].
  split; [outcome_of E (@attempts nat) 21|].
  split; [done|].
  split; [outcome_of E (@ui nat) 21|].
  split; [rewrite Hm, Hc; lia|].
  split.
  - outcome_of E (λ p : Poll nat, forallb (λ kd, negb (is_analyzed kd.2)) (delivered p)) true.
  - outcome_of E (λ p : Poll nat,
      forallb (λ x : N * Obs, match x.2 with ObsError _ => false | _ => true end)
        (trace p)) true.
Qed.

(** Two ticks overlap and the first response carries status "analyzed":
    tick 2 exists all the same, and the sink is invoked once more after
    the analyzed snapshot of tick 1. *)
Lemma analyzed_does_not_end_overlapping_ticks :
  ∃ p, run session7
         [EvElapse 3000; EvTimer; EvElapse 3000; EvTimer; EvElapse 500;
          EvFulfil 1 (snapshot "analyzed"); EvElapse 500;
          EvFulfil 2 (snapshot "analyzed")] = Some p ∧
       trace p = [(3000, ObsFetch 1 7); (6000, ObsFetch 2 7);
                  (6500, ObsUpdate 1 (snapshot "analyzed")); (6500, ObsClear 1);
                  (7000, ObsUpdate 2 (snapshot "analyzed")); (7000, ObsClear 2)]%N ∧
       ¬ stops_at_analyzed p.
Proof.
  runs_to p E. exists p. split; [done|].
  match goal with |- ?t = ?v ∧ _ => assert (Ht : t = v) by outcome_of E (@trace nat) v end.
  split; [done|]. intros H.
  apply (H 6500%N 1 (snapshot "analyzed")) with (t' := 6000%N) (id := 7%N);
    [|done|]; rewrite Ht; set_solver.
Qed.

(** Two ticks overlap and the first request fails: tick 2 exists all the
    same and its snapshot reaches the sink after the failure. *)
Lemma failure_does_not_end_overlapping_ticks :
  ∃ p, run session7
         [EvElapse 3000; EvTimer; EvElapse 3000; EvTimer; EvElapse 500;
          EvReject 1; EvElapse 500; EvFulfil 2 (snapshot "analyzing")] = Some p ∧
       trace p = [(3000, ObsFetch 1 7); (6000, ObsFetch 2 7);
                  (6500, ObsError 1); (6500, ObsClear 1);
                  (7000, ObsUpdate 2 (snapshot "analyzing"))]%N ∧
       maxAttempts p = 20%Z ∧
       ¬ halts_on_failure p.
Proof.
  runs_to p E. exists p. split; [done|].
  match goal with |- ?t = ?v ∧ _ => assert (Ht : t = v) by outcome_of E (@trace nat) v end.
  assert (Hm : maxAttempts p = 20%Z) by outcome_of E (@maxAttempts nat) 20%Z.
  split; [done|]. split; [done|]. intros H.
  apply (H 6500%N 1) with (j := 2) (t' := 6000%N) (id := 7%N);
    [|rewrite Hm; lia|lia|]; rewrite Ht; set_solver.
Qed.

(** The timer fires while the first request is pending: tick 2 issues its
    request before tick 1 has delivered anything, and the sink receives
    the snapshot of tick 2 before that of tick 1. *)
Lemma slow_response_overlaps_next_tick :
  ∃ p, run session7
         [EvElapse 3000; EvTimer; EvElapse 3000; EvTimer; EvElapse 500;
          EvFulfil 2 (snapshot "analyzing"); EvElapse 500;
          EvFulfil 1 (snapshot "reported")] = Some p ∧
       trace p = [(3000, ObsFetch 1 7); (6000, ObsFetch 2 7);
                  (6500, ObsUpdate 2 (snapshot "analyzing"));
                  (7000, ObsUpdate 1 (snapshot "reported"))]%N ∧
       ¬ in_tick_order (trace p).
Proof.
  runs_to p E. exists p. split; [done|].
  match goal with |- ?t = ?v ∧ _ => assert (Ht : t = v) by outcome_of E (@trace nat) v end.
  split; [done|]. intros H.
  destruct (H 1 6000%N 0 7%N) as (j & t' & d & Hj & Hlk); [by rewrite Ht|].
  rewrite Ht in Hlk. destruct j as [|j]; [discriminate Hlk|lia].
Qed.

(** The handle is cleared while the first request is pending: the
    response that arrives later is handed to the sink all the same. *)
Lemma inflight_result_delivered_after_stop :
  ∃ p, run session7
         [EvElapse 3000; EvTimer; EvElapse 100; EvStop; EvElapse 100;
          EvFulfil 1 (snapshot "analyzing")] = Some p ∧
       trace p = [(3000, ObsFetch 1 7); (3100, ObsStop);
                  (3200, ObsUpdate 1 (snapshot "analyzing"))]%N ∧
       ui p = 1 ∧
       ¬ silent_after_stop p.
Proof.
  runs_to p E. exists p. split; [done|].
  match goal with |- ?t = ?v ∧ _ => assert (Ht : t = v) by outcome_of E (@trace nat) v end.
  split; [done|]. split; [outcome_of E (@ui nat) 1|]. intros H.
  specialize (H 1 2 3100%N 3200%N (ObsUpdate 1 (snapshot "analyzing"))).
  rewrite Ht in H. by specialize (H eq_refl ltac:(lia) eq_refl).
Qed.

(** *** The theorems at work on the session of report 7 *)

Lemma start_returns_before_first_tick_witness :
  run session7 [EvElapse 3000; EvTimer] = Some (tick (elapse 3000 session7)) ∧
  (3000%N, ObsFetch 1 7) ∈ trace (tick (elapse 3000 session7)) ∧
  is_fetch (ObsFetch 1 7) || is_update (ObsFetch 1 7) = true ∧
  (0 + INTERVAL_MS ≤ 3000)%N.
Proof.
  assert (Hin : (3000%N, ObsFetch 1 7) ∈ trace (tick (elapse 3000 session7)))
    by (vm_compute; constructor).
  split; [reflexivity|]. split; [exact Hin|]. split; [reflexivity|].
  destruct (start_returns_before_first_tick 7%N counting_sink None 0%N 0)
    as (_ & _ & _ & _ & _ & _ & _ & H).
  exact (H [EvElapse 3000; EvTimer] _ eq_refl 3000%N (ObsFetch 1 7) Hin eq_refl).
Defined.

Lemma analyzed_delivery_clears_interval_witness :
  let p := tick (elapse 3000 session7) in
  let d := snapshot "analyzed" in
  step p (EvFulfil 1 d) = Some (resume 1 d p) ∧ is_analyzed d = true ∧
  interval (resume 1 d p) = false.
Proof.
  intros p d.
  assert (H1 : step p (EvFulfil 1 d) = Some (resume 1 d p)) by reflexivity.
  assert (H2 : is_analyzed d = true) by (vm_compute; reflexivity).
  split; [exact H1|]. split; [exact H2|].
  destruct (analyzed_delivery_clears_interval p 1 d (resume 1 d p) H1 H2)
    as (_ & _ & Hc & _).
  exact Hc.
Defined.

Lemma failed_fetch_clears_interval_witness :
  let p := elapse 10 (catch 1 [] 0 (tick (elapse 3000 session7))) in
  run session7 ([EvElapse 3000; EvTimer] ++ EvReject 1 :: [EvElapse 10]) = Some p ∧
  ∀ t d, (t, ObsUpdate 1 d) ∉ trace p.
Proof.
  intros p.
  assert (H : run session7 ([EvElapse 3000; EvTimer] ++ EvReject 1 :: [EvElapse 10])
              = Some p) by reflexivity.
  split; [exact H|].
  destruct (failed_fetch_clears_interval 7%N counting_sink None 0%N 0
              [EvElapse 3000; EvTimer] 1 [EvElapse 10] p H)
    as (p1 & p2 & _ & _ & _ & _ & _ & _ & _ & _ & _ & _ & Hnever & _).
  exact Hnever.
Defined.

Lemma sequential_ticks_deliver_in_order_witness :
  sequential session7 (steady 3) = true ∧
  ∃ p, run session7 (steady 3) = Some p ∧
       in_tick_order (trace p) ∧ StronglySorted lt ((delivered p).*1).
Proof.
  assert (Hs : sequential session7 (steady 3) = true) by (vm_compute; reflexivity).
  split; [exact Hs|].
  runs_to p E. exists p. split; [reflexivity|].
  destruct (sequential_ticks_deliver_in_order 7%N counting_sink None 0%N 0
              (steady 3) p Hs E) as (Ho & Hd & _).
  exact (conj Ho Hd).
Defined.

Lemma stop_prevents_further_ticks_witness :
  let p := tick (elapse 3000 session7) in
  let d := snapshot "analyzing" in
  run p (EvStop :: [EvFulfil 1 d]) = Some (resume 1 d (stop p)) ∧
  (EvTimer ∉ [EvFulfil 1 d]) ∧
  attempts (resume 1 d (stop p)) = attempts p.
Proof.
  intros p d.
  assert (H : run p (EvStop :: [EvFulfil 1 d]) = Some (resume 1 d (stop p)))
    by reflexivity.
  split; [exact H|].
  destruct (stop_prevents_further_ticks p [EvFulfil 1 d] _ H) as (Hno & Ha & _).
  exact (conj Hno Ha).
Defined.

End Scenarios.

(** * Properties of report submission *)

Section SubmitFacts.
Import App.
Implicit Types (a : State).

Lemma truthy_false (s : string) : truthy s = false ↔ s = "".
Proof. by destruct s. Qed.

Lemma js_or_default (s t : string) :
  js_or s t = if decide (s = "") then t else s.
Proof. by destruct s. Qed.

(** What [handleSubmit] does with a draft that has a location. *)
Lemma handleSubmit_sends a :
  location (draft a) ≠ "" →
  handleSubmit a =
    (send (reportDisaster (create_body (draft a)))
       (setAnalysisResult None (setSubmitError "" (setSubmitting true a))),
     Some (reportDisaster (create_body (draft a)))).
Proof.
  intros Hloc. unfold handleSubmit.
  destruct (truthy (location (draft a))) eqn:E; [done|].
  by apply truthy_false in E.
Qed.

(** [C6] A draft whose location is the empty string is rejected before
    anything is sent: the handler sets the message "Please enter a
    location.", issues no request and waits for nothing.  Any other
    location, one made of white space included, passes the check and the
    create request is sent with it. *)
Theorem empty_location_rejected a :
  (location (draft a) = "" →
     handleSubmit a = (setSubmitError "Please enter a location." a, None) ∧
     net (handleSubmit a).1 = net a ∧
     submitError (handleSubmit a).1 = "Please enter a location.") ∧
  (location (draft a) ≠ "" →
     ∃ body, (handleSubmit a).2 = Some (reportDisaster body) ∧
             net (handleSubmit a).1 = net a ++ [reportDisaster body] ∧
             body !! "address" = Some (location (draft a))).
Proof.
  split.
  - intros Hloc. unfold handleSubmit. rewrite Hloc. done.
  - intros Hloc. rewrite (handleSubmit_sends a Hloc).
    exists (create_body (draft a)). done.
Qed.

(** [C7] For a draft with a location, the create request carries
    [disaster_type = "fire"] when the predicted type is empty, and the
    predicted type itself otherwise. *)
Theorem disaster_type_defaults_to_fire a :
  location (draft a) ≠ "" →
  ∃ body, (handleSubmit a).2 = Some (reportDisaster body) ∧
          net (handleSubmit a).1 = net a ++ [reportDisaster body] ∧
          body !! "disaster_type" =
            Some (if decide (predicted (draft a) = "") then "fire"
                  else predicted (draft a)).
Proof.
  intros Hloc. rewrite (handleSubmit_sends a Hloc).
  exists (create_body (draft a)). split; [done|]. split; [done|].
  unfold create_body. rewrite js_or_default. done.
Qed.

(** [C8] For a draft with a location, the handler sends one request, and
    its body has exactly the fields [disaster_type], [address] and
    [description], the last two taken from the draft.  The body has no
    [confidence] or [keywords] field and does not depend on what the
    draft holds there. *)
Theorem create_body_has_three_fields a :
  location (draft a) ≠ "" →
  ∃ body, (handleSubmit a).2 = Some (reportDisaster body) ∧
          net (handleSubmit a).1 = net a ++ [reportDisaster body] ∧
          dom body = ({[ "disaster_type"; "address"; "description" ]} : gset string) ∧
          body !! "address" = Some (location (draft a)) ∧
          body !! "description" = Some (description (draft a)) ∧
          body !! "confidence" = None ∧ body !! "keywords" = None ∧
          ∀ c kw, create_body (mkDraft (location (draft a)) (description (draft a))
                                 (predicted (draft a)) c kw) = body.
Proof.
  intros Hloc. rewrite (handleSubmit_sends a Hloc).
  exists (create_body (draft a)). split; [done|]. split; [done|].
  unfold create_body. split.
  - rewrite !dom_insert_L, dom_singleton_L. set_solver.
  - done.
Qed.

(** *** The analyzing flag *)

Lemma is_analyzed_spec (disaster : Disaster) :
  is_analyzed disaster = true ↔ disaster !! "status" = Some (JStr "analyzed").
Proof. unfold is_analyzed. apply bool_decide_eq_true. Qed.

(** The sink never throws, always stores the snapshot, and touches the
    flag only for an analyzed snapshot. *)
Lemma handleSubmit_onUpdate_spec disaster a :
  ∃ a', handleSubmit_onUpdate disaster a = Normal a' ∧
        analysisResult a' = Some disaster ∧
        analyzing a' = (if is_analyzed disaster then false else analyzing a).
Proof.
  unfold handleSubmit_onUpdate. destruct (is_analyzed disaster); eauto.
Qed.

Lemma analyzing_step (p p' : Poll State) e :
  onUpdate p = handleSubmit_onUpdate →
  ((∀ k d, (k, d) ∈ delivered p → is_analyzed d = false) → analyzing (ui p) = true) →
  step p e = Some p' →
  onUpdate p' = handleSubmit_onUpdate ∧
  ((∀ k d, (k, d) ∈ delivered p' → is_analyzed d = false) → analyzing (ui p') = true).
Proof.
  intros Hsink Hflag H. split.
  { apply step_closure in H as (_ & -> & _). done. }
  intros Hnone.
  assert (Hold : ∀ k d, (k, d) ∈ delivered p → is_analyzed d = false).
  { intros k d [t Hin]%elem_of_deliveries. apply (Hnone k d).
    apply elem_of_deliveries. exists t.
    destruct (step_trace _ _ _ H) as [os ->]. apply elem_of_observe. auto. }
  specialize (Hflag Hold).
  step_cases H; simpl; try done;
    destruct (handleSubmit_onUpdate_spec d (ui p)) as (a' & Ha' & _ & Hflag');
    rewrite Hsink, Ha' in *; simplify_eq.
  all: rewrite Hflag', Hflag.
  all: rewrite (Hnone k d); [done|].
  all: apply elem_of_deliveries; exists (clock p); simpl;
       apply elem_of_observe; right; split; [done|]; set_solver.
Qed.

(** [C9] The sink that [handleSubmit] installs leaves the analyzing flag
    as it is unless the snapshot has status exactly "analyzed", in which
    case it clears the flag.  The flag is set when polling starts, so in
    a session that never delivers an analyzed snapshot, however it ends,
    the flag is still set. *)
Theorem analyzing_cleared_only_by_analyzed :
  (∀ disaster a,
     analyzing (outcome (handleSubmit_onUpdate disaster a)) =
       if is_analyzed disaster then false else analyzing a) ∧
  (∀ disaster,
     is_analyzed disaster = true ↔ disaster !! "status" = Some (JStr "analyzed")) ∧
  (∀ id now a, analyzing (ui (handleSubmit_fulfilled id now a)) = true) ∧
  ∀ id now a es p,
    run (handleSubmit_fulfilled id now a) es = Some p →
    (∀ k d, (k, d) ∈ delivered p → is_analyzed d = false) →
    analyzing (ui p) = true.
Proof.
  split.
  { intros disaster a.
    destruct (handleSubmit_onUpdate_spec disaster a) as (a' & -> & _ & H). done. }
  split; [apply is_analyzed_spec|]. split; [done|].
  intros id now a es p Hrun.
  apply (run_invariant (λ q : Poll State,
           onUpdate q = handleSubmit_onUpdate ∧
           ((∀ k d, (k, d) ∈ delivered q → is_analyzed d = false) →
            analyzing (ui q) = true))) in Hrun; [by destruct Hrun| |done].
  intros q e q' [Hsink Hflag] Hstep. by eapply analyzing_step.
Qed.

End SubmitFacts.

(** ** Concrete submissions *)

Section Submissions.
Import App.

(** A location made of three spaces is blank, and the create request is
    sent with it. *)
Lemma blank_location_is_submitted :
  let a := typed (mkDraft "   " "smoke" "" "" "") in
  let body : gmap string string :=
    {[ "disaster_type" := "fire"; "address" := "   "; "description" := "smoke" ]} in
  is_blank (location (draft a)) = true ∧
  (handleSubmit a).2 = Some (reportDisaster body) ∧
  net (handleSubmit a).1 = [reportDisaster body] ∧
  submitError (handleSubmit a).1 = "".
Proof. repeat split; vm_compute; reflexivity. Qed.

Lemma empty_location_rejected_witness :
  let a := typed (mkDraft "" "smoke" "" "" "") in
  let b := typed (mkDraft "123 Main St" "smoke" "" "" "") in
  location (draft a) = "" ∧ net (handleSubmit a).1 = net a ∧
  location (draft b) ≠ "" ∧
  ∃ body, (handleSubmit b).2 = Some (reportDisaster body) ∧
          body !! "address" = Some "123 Main St".
Proof.
  intros a b.
  assert (Ha : location (draft a) = "") by reflexivity.
  assert (Hb : location (draft b) ≠ "") by (vm_compute; discriminate).
  destruct (empty_location_rejected a) as [Hempty _].
  destruct (empty_location_rejected b) as [_ Hsome].
  destruct (Hempty Ha) as (_ & Hnet & _).
  destruct (Hsome Hb) as (body & Hreq & _ & Haddr).
  split; [exact Ha|]. split; [exact Hnet|]. split; [exact Hb|].
  exists body. split; [exact Hreq|exact Haddr].
Defined.

Lemma disaster_type_defaults_to_fire_witness :
  let a := typed (mkDraft "123 Main St" "smoke" "" "" "") in
  location (draft a) ≠ "" ∧
  ∃ body, (handleSubmit a).2 = Some (reportDisaster body) ∧
          body !! "disaster_type" = Some "fire".
Proof.
  intros a.
  assert (Ha : location (draft a) ≠ "") by (vm_compute; discriminate).
  destruct (disaster_type_defaults_to_fire a Ha) as (body & Hreq & _ & Hty).
  split; [exact Ha|]. exists body. split; [exact Hreq|exact Hty].
Defined.

Lemma create_body_has_three_fields_witness :
  let a := typed (mkDraft "123 Main St" "smoke" "flood" "0.9" "fire, smoke") in
  location (draft a) ≠ "" ∧
  ∃ body, (handleSubmit a).2 = Some (reportDisaster body) ∧
          dom body = ({[ "disaster_type"; "address"; "description" ]} : gset string).
Proof.
  intros a.
  assert (Ha : location (draft a) ≠ "") by (vm_compute; discriminate).
  destruct (create_body_has_three_fields a Ha) as (body & Hreq & _ & Hdom & _).
  split; [exact Ha|]. exists body. split; [exact Hreq|exact Hdom].
Defined.

Lemma analyzing_cleared_only_by_analyzed_witness :
  let a := (handleSubmit (typed (mkDraft "123 Main St" "smoke" "" "" ""))).1 in
  ∃ p, run (handleSubmit_fulfilled 42 0 a)
         [EvElapse 3000; EvTimer; EvFulfil 1 (snapshot "analyzing")] = Some p ∧
       (∀ k d, (k, d) ∈ delivered p → is_analyzed d = false) ∧
       analyzing (ui p) = true.
Proof.
  intros a.
  set (es := [EvElapse 3000; EvTimer; EvFulfil 1 (snapshot "analyzing")]).
  assert (Hsome : match run (handleSubmit_fulfilled 42 0 a) es with
                  | Some _ => true | None => false end = true)
    by (vm_compute; reflexivity).
  destruct (run (handleSubmit_fulfilled 42 0 a) es) as [p|] eqn:E;
    [|discriminate Hsome].
  assert (Hd : delivered <$> run (handleSubmit_fulfilled 42 0 a) es
               = Some [(1, snapshot "analyzing")]) by (vm_compute; reflexivity).
  rewrite E in Hd. injection Hd as Hd.
  assert (Hnone : ∀ k d, (k, d) ∈ delivered p → is_analyzed d = false).
  { intros k d. rewrite Hd. intros [= -> ->]%list_elem_of_singleton.
    vm_compute. reflexivity. }
  destruct analyzing_cleared_only_by_analyzed as (_ & _ & _ & H).
  exists p. split; [reflexivity|]. split; [exact Hnone|].
  exact (H 42%N 0%N a es p E Hnone).
Defined.

End Submissions.

(** * Further properties of the poll session *)

Section PollerMore.
Context {UI : Type}.
Implicit Types (p : Poll UI) (e : Event) (es : list Event).

Lemma requests_app (t1 t2 : list (N * Obs)) :
  requests (t1 ++ t2) = requests t1 ++ requests t2.
Proof. apply omap_app. Qed.

Lemma replay_app (f : Disaster → UI → Completion UI) u l1 l2 :
  replay f u (l1 ++ l2) = replay f (replay f u l1) l2.
Proof. apply foldl_app. Qed.

(** *** Requests *)

Lemma requests_numbered id f m now (ui0 : UI) es p :
  run (pollDisasterAnalysis id f m now ui0) es = Some p →
  requests (trace p) = (λ k, (k, id)) <$> seq 1 (attempts p).
Proof.
  intros Hrun.
  apply (run_invariant (λ q : Poll UI, disasterId q = id ∧
           requests (trace q) = (λ k, (k, id)) <$> seq 1 (attempts q)))
    in Hrun; [by destruct Hrun| |done].
  clear. intros p e p' [Hid Hreq] H.
  step_cases H; (split; [done|]);
    unfold tick, catch, stop, elapse, observe; cbn [trace attempts fmap list_fmap];
    rewrite ?requests_app, ?Hreq; cbn [requests omap list_omap snd];
    rewrite ?app_nil_r; try done.
  rewrite seq_S, fmap_app, Hid. done.
Qed.

(** [X1] A session issues its requests one per tick, all of them for the
    report it was started on: after [attempts] ticks the requests are
    [getDisaster(disasterId)] for ticks 1, 2, ..., [attempts], in that
    order, and nothing else. *)
Theorem requests_are_numbered id f m now (ui0 : UI) es p :
  run (pollDisasterAnalysis id f m now ui0) es = Some p →
  requests (trace p) = (λ k, (k, id)) <$> seq 1 (attempts p) ∧
  length (requests (trace p)) = attempts p ∧
  ∀ k id', (k, id') ∈ requests (trace p) → id' = id.
Proof.
  intros Hrun%requests_numbered. rewrite Hrun. split; [done|]. split.
  - by rewrite length_fmap, length_seq.
  - intros k id' (j & [= -> ->] & _)%list_elem_of_fmap. done.
Qed.

(** *** Deliveries *)

Lemma requested_first_app id (tr new : list (N * Obs)) :
  requested_first id tr →
  (∀ i t k d, new !! i = Some (t, ObsUpdate k d) →
     ∃ j t', tr !! j = Some (t', ObsFetch k id)) →
  requested_first id (tr ++ new).
Proof.
  intros Hold Hnew i t k d [Hi|[Hlen Hi]]%lookup_app_Some.
  - destruct (Hold i t k d Hi) as (j & t' & Hj & Hlk).
    exists j, t'. split; [done|]. by apply lookup_app_l_Some.
  - destruct (Hnew _ t k d Hi) as (j & t' & Hj).
    exists j, t'. pose proof (lookup_lt_Some _ _ _ Hj).
    split; [lia|]. by apply lookup_app_l_Some.
Qed.

Lemma delivered_observe p os :
  deliveries (observe p os) = delivered p ++ deliveries ((λ o, (clock p, o)) <$> os).
Proof. unfold observe, delivered. apply deliveries_app. Qed.

(** What ties deliveries to requests in every state of a session on [id]. *)
Lemma answers_step id p e p' :
  wf p → disasterId p = id →
  NoDup ((delivered p).*1) → requested_first id (trace p) →
  (∀ k, k ∈ inflight p → ∃ j t', trace p !! j = Some (t', ObsFetch k id)) →
  step p e = Some p' →
  NoDup ((delivered p').*1) ∧ requested_first id (trace p') ∧
  (∀ k, k ∈ inflight p' → ∃ j t', trace p' !! j = Some (t', ObsFetch k id)).
Proof.
  intros W Hid Hnd Hreq Hpend H.
  assert (Hfresh : ∀ k d, k ∈ inflight p →
            NoDup ((delivered p ++ [(k, d)]).*1)).
  { intros k d Hk. rewrite fmap_app. apply NoDup_app. split; [done|].
    split; [|apply NoDup_singleton].
    intros j Hj Hjk. apply list_elem_of_singleton in Hjk.
    apply list_elem_of_fmap in Hj as ([j' d'] & Heq & Hin). simpl in *. subst.
    apply elem_of_deliveries in Hin as [t Hin].
    exact (wf_pending _ W _ _ _ Hin Hk). }
  assert (Hkeep : ∀ new k, k ∈ inflight p →
            ∃ j t', (trace p ++ new) !! j = Some (t', ObsFetch k id)).
  { intros new k (j & t' & Hj)%Hpend. exists j, t'. by apply lookup_app_l_Some. }
  step_cases H;
    repeat match goal with
    | E : bool_decide _ = true |- _ => apply bool_decide_eq_true in E
    end;
    unfold delivered, tick, catch, stop, elapse;
    cbn [trace inflight]; rewrite ?delivered_observe;
    cbn [fmap list_fmap deliveries omap list_omap snd app];
    rewrite ?app_nil_r; unfold observe.
  - done.
  - (* the timer fires *)
    split; [done|]. split.
    + apply requested_first_app; [done|].
      intros i t k d [-> [=]]%list_lookup_singleton_Some.
    + intros k [Hk| ->%list_elem_of_singleton]%elem_of_app; [by apply Hkeep|].
      exists (length (trace p)), (clock p). rewrite Hid. 
      rewrite lookup_app_r by lia. by rewrite Nat.sub_diag.
  - split; [by apply Hfresh|]. split.
    + apply requested_first_app; [done|]. intros i t j d' Hlk.
      apply list_elem_of_lookup_2 in Hlk.
      repeat (apply elem_of_cons in Hlk as [Heq|Hlk]; [simplify_eq; by apply Hpend|]).
      by apply elem_of_nil in Hlk.
    + intros j [Hj _]%elem_of_settle. by apply Hkeep.
  - split; [by apply Hfresh|]. split.
    + apply requested_first_app; [done|]. intros i t j d' Hlk.
      apply list_elem_of_lookup_2 in Hlk.
      repeat (apply elem_of_cons in Hlk as [Heq|Hlk]; [simplify_eq; by apply Hpend|]).
      by apply elem_of_nil in Hlk.
    + intros j [Hj _]%elem_of_settle. by apply Hkeep.
  - split; [by apply Hfresh|]. split.
    + apply requested_first_app; [done|]. intros i t j d' Hlk.
      apply list_elem_of_lookup_2 in Hlk.
      repeat (apply elem_of_cons in Hlk as [Heq|Hlk]; [simplify_eq; by apply Hpend|]).
      by apply elem_of_nil in Hlk.
    + intros j [Hj _]%elem_of_settle. by apply Hkeep.
  - split; [done|]. split.
    + apply requested_first_app; [done|]. intros i t j d' Hlk.
      apply list_elem_of_lookup_2 in Hlk.
      repeat (apply elem_of_cons in Hlk as [Heq|Hlk]; [simplify_eq|]).
      by apply elem_of_nil in Hlk.
    + intros j [Hj _]%elem_of_settle. by apply Hkeep.
  - split; [done|]. split.
    + apply requested_first_app; [done|].
      intros i t k d [-> [=]]%list_lookup_singleton_Some.
    + intros k Hk. by apply Hkeep.
Qed.

(** [X2] The sink only ever receives answers to the session's own
    requests, and each answer once: every snapshot handed to the sink
    belongs to a tick whose request for [disasterId] was issued earlier,
    no tick delivers twice, and so the sink is invoked at most as often as
    requests were issued. *)
Theorem deliveries_answer_requests id f m now (ui0 : UI) es p :
  run (pollDisasterAnalysis id f m now ui0) es = Some p →
  requested_first id (trace p) ∧ NoDup ((delivered p).*1) ∧
  calls p ≤ fetches p.
Proof.
  intros Hrun. pose proof (wf_run _ _ _ _ _ _ _ Hrun) as W.
  apply (run_invariant (λ q : Poll UI, wf q ∧ disasterId q = id ∧
           NoDup ((delivered q).*1) ∧ requested_first id (trace q) ∧
           (∀ k, k ∈ inflight q →
              ∃ j t', trace q !! j = Some (t', ObsFetch k id))))
    in Hrun.
  - destruct Hrun as (_ & _ & Hnd & Hreq & _). split; [done|]. split; [done|].
    pose proof (wf_calls _ W). pose proof (wf_fetches _ W). lia.
  - clear. intros p e p' (W & Hid & Hnd & Hreq & Hpend) H.
    split; [by eapply wf_step|]. split.
    { apply step_closure in H as (-> & _). done. }
    by eapply answers_step.
  - split; [apply wf_start|]. split; [done|]. split; [constructor|].
    split.
    + intros i t k d Hlk. simpl in Hlk. by rewrite lookup_nil in Hlk.
    + intros k Hk. by apply elem_of_nil in Hk.
Qed.

(** *** The state the sink acts on *)

Lemma replay_step p e p' :
  step p e = Some p' →
  ∃ new, delivered p' = delivered p ++ new ∧
         ui p' = replay (onUpdate p) (ui p) new.
Proof.
  intros H.
  step_cases H;
    unfold delivered, tick, catch, stop, elapse;
    cbn [trace ui]; rewrite ?delivered_observe;
    cbn [fmap list_fmap deliveries omap list_omap snd app];
    unfold delivered;
    try (exists []; by rewrite app_nil_r);
    (eexists; split; [reflexivity|]); unfold replay; simpl;
    match goal with E : onUpdate _ _ _ = _ |- _ => by rewrite E end.
Qed.

Lemma replay_run es : ∀ p p',
  run p es = Some p' →
  ∃ new, delivered p' = delivered p ++ new ∧
         ui p' = replay (onUpdate p) (ui p) new.
Proof.
  induction es as [|e es IH]; intros p p' Hrun; simpl in Hrun.
  - simplify_eq. exists []. by rewrite app_nil_r.
  - destruct (step p e) as [p1|] eqn:E; [|done].
    destruct (replay_step _ _ _ E) as (new1 & Hd1 & Hu1).
    destruct (IH _ _ Hrun) as (new2 & Hd2 & Hu2).
    apply step_closure in E as (_ & Hf & _).
    exists (new1 ++ new2). split.
    + by rewrite Hd2, Hd1, app_assoc.
    + by rewrite Hu2, Hf, Hu1, replay_app.
Qed.

(** [X3] The session changes the state it shares with the sink only by
    calling the sink: at any moment that state is what results from
    handing the delivered snapshots to [onUpdate] one after the other, in
    delivery order, starting from the state at the start.  Ticks, failed
    requests and clearing the interval leave it alone. *)
Theorem sink_state_is_replay id f m now (ui0 : UI) es p :
  run (pollDisasterAnalysis id f m now ui0) es = Some p →
  ui p = replay f ui0 (delivered p).
Proof.
  intros (new & Hd & Hu)%replay_run. simpl in *. by rewrite Hd, Hu.
Qed.

(** *** A sink that throws *)

(** [X4] An exception thrown by the sink is caught by the callback: it is
    logged, the interval is cleared, and the state the sink left behind is
    kept.  From then on the timer never fires, whatever the status of the
    snapshot and however much of the budget is left. *)
Theorem throwing_sink_ends_polling p k d u p1 :
  step p (EvFulfil k d) = Some p1 →
  onUpdate p d (ui p) = Throw u →
  trace p1 = trace p ++ [(clock p, ObsUpdate k d); (clock p, ObsError k);
                         (clock p, ObsClear k)] ∧
  ui p1 = u ∧ interval p1 = false ∧
  ∀ es p2, run p1 es = Some p2 →
    (EvTimer ∉ es) ∧ attempts p2 = attempts p1 ∧ fetches p2 = fetches p1.
Proof.
  intros H Hthrow. fulfil_cases H; try congruence.
  simplify_eq. split; [done|]. split; [done|]. split; [done|].
  intros es p2 Hrun.
  destruct (cleared_run es _ _ (eq_refl : interval (catch k [ObsUpdate k d] u p) = false)
              Hrun) as (? & _ & ? & ? & _).
  done.
Qed.

(** *** Spending the budget *)

(** What holds along a schedule that never fails, never delivers an
    analyzed snapshot, never clears the handle and never overlaps ticks,
    with a sink that does not throw. *)
Lemma steady_step p e p' :
  wf p → seq_inv p →
  (∀ d u, ∃ u', onUpdate p d u = Normal u') →
  calls p + length (inflight p) = attempts p →
  (interval p = false →
     (maxAttempts p ≤ Z.of_nat (attempts p))%Z ∧ inflight p = [] ∧ 1 ≤ attempts p) →
  keeps_polling e = true → (e = EvTimer → inflight p = []) →
  step p e = Some p' →
  calls p' + length (inflight p') = attempts p' ∧
  (interval p' = false →
     (maxAttempts p' ≤ Z.of_nat (attempts p'))%Z ∧ inflight p' = [] ∧ 1 ≤ attempts p').
Proof.
  intros W Q Htotal Hsum Hdone Hkeep Hseq H.
  step_cases H;
    repeat match goal with
    | E : bool_decide _ = true |- _ => apply bool_decide_eq_true in E
    end;
    try discriminate Hkeep.
  - done.
  - (* the timer fires *)
    split; [|simpl; congruence].
    trace_counts. rewrite length_app. simpl.
    unfold calls, count_updates in *. lia.
  - (* fulfilled, the budget is spent *)
    destruct (wf_settle p k W Heqb) as (_ & _ & Hlen).
    pose proof (wf_inflight _ W k Heqb).
    split.
    + trace_counts. unfold calls, count_updates in *. lia.
    + intros _. simpl. split; [|split; [|lia]].
      * unfold finished in *. simpl in Hkeep.
        apply negb_true_iff in Hkeep. rewrite Hkeep in *. simpl in *.
        by apply bool_decide_eq_true in Heqb0.
      * apply nil_length_inv.
        destruct (sq_inflight _ Q) as [E|E]; rewrite E in Hlen; simpl in Hlen; lia.
  - (* fulfilled, polling goes on *)
    destruct (wf_settle p k W Heqb) as (_ & _ & Hlen).
    split.
    + trace_counts. unfold calls, count_updates in *. lia.
    + simpl. intros Hc. destruct (Hdone Hc) as (_ & Hnil & _).
      rewrite Hnil in Heqb. by apply elem_of_nil in Heqb.
  - (* the sink does not throw *)
    destruct (Htotal d (ui p)) as [u' Hu]. congruence.
Qed.

Lemma steady_run es : ∀ p p',
  wf p → seq_inv p →
  (∀ d u, ∃ u', onUpdate p d u = Normal u') →
  calls p + length (inflight p) = attempts p →
  (interval p = false →
     (maxAttempts p ≤ Z.of_nat (attempts p))%Z ∧ inflight p = [] ∧ 1 ≤ attempts p) →
  forallb keeps_polling es = true → sequential p es = true →
  run p es = Some p' →
  wf p' ∧ seq_inv p' ∧
  calls p' + length (inflight p') = attempts p' ∧
  (interval p' = false →
     (maxAttempts p' ≤ Z.of_nat (attempts p'))%Z ∧ inflight p' = [] ∧ 1 ≤ attempts p').
Proof.
  induction es as [|e es IH]; intros p p' W Q Htotal Hsum Hdone Hkeep Hseq Hrun;
    simpl in *.
  - by simplify_eq.
  - destruct (step p e) as [p1|] eqn:E; [|done].
    apply andb_true_iff in Hkeep as [Hk Hkeep].
    apply andb_true_iff in Hseq as [Hnow Hseq].
    assert (Hidle : e = EvTimer → inflight p = []).
    { intros ->. by apply bool_decide_eq_true in Hnow. }
    destruct (steady_step p e p1 W Q Htotal Hsum Hdone Hk Hidle E) as [Hsum1 Hdone1].
    apply (IH p1); try done.
    + by eapply wf_step.
    + by eapply seq_step.
    + apply step_closure in E as (_ & -> & _). done.
Qed.

(** [X5] While ticks do not overlap, every request succeeds with a
    snapshot that is not analyzed, the sink does not throw and nobody
    clears the handle, the session clears its interval exactly when the
    sink has been invoked [maxAttempts] times (once, for a budget below
    one): before that the count is smaller and the interval is live, and
    at that point nothing is in flight any more. *)
Theorem steady_polling_spends_budget id f m now (ui0 : UI) es p :
  (∀ d u, ∃ u', f d u = Normal u') →
  forallb keeps_polling es = true →
  sequential (pollDisasterAnalysis id f m now ui0) es = true →
  run (pollDisasterAnalysis id f m now ui0) es = Some p →
  let budget := Z.max 1 (default DEFAULT_MAX_ATTEMPTS m) in
  (interval p = false →
     Z.of_nat (calls p) = budget ∧ attempts p = calls p ∧ inflight p = []) ∧
  (interval p = true → (Z.of_nat (calls p) < budget)%Z).
Proof.
  intros Htotal Hkeep Hseq Hrun budget.
  destruct (steady_run es _ _ (wf_start id f m now ui0) (seq_start id f m now ui0)
              Htotal eq_refl ltac:(done) Hkeep Hseq Hrun)
    as (W & Q & Hsum & Hdone).
  apply run_closure in Hrun as (_ & _ & Hm & _). simpl in Hm.
  subst budget. rewrite <- Hm. split.
  - intros Hc. destruct (Hdone Hc) as (Hmax & Hnil & Hpos).
    rewrite Hnil in Hsum. simpl in Hsum.
    split; [|split; [lia|done]].
    destruct (sq_budget _ Q); lia.
  - intros Hlive. pose proof (wf_inflight _ W) as Hrange.
    destruct (sq_inflight _ Q) as [E|E]; rewrite E in *; simpl in Hsum.
    + destruct (sq_room _ Q Hlive E); lia.
    + specialize (Hrange (attempts p) ltac:(by apply list_elem_of_singleton)).
      destruct (sq_budget _ Q); lia.
Qed.

(** [X6] The budget is only looked at after a response has come back.  A
    budget of one or less, zero and negative numbers included, does not
    keep the first tick from issuing its request; the first response that
    comes back, whatever its status, clears the interval, and while ticks
    do not overlap no second request is issued. *)
Theorem budget_below_one_polls_once id f (m : Z) now (ui0 : UI) es p :
  (m ≤ 1)%Z →
  run (pollDisasterAnalysis id f (Some m) now ui0) es = Some p →
  step (elapse INTERVAL_MS (pollDisasterAnalysis id f (Some m) now ui0)) EvTimer
    = Some (tick (elapse INTERVAL_MS (pollDisasterAnalysis id f (Some m) now ui0))) ∧
  (∀ k d p', step p (EvFulfil k d) = Some p' → interval p' = false) ∧
  (sequential (pollDisasterAnalysis id f (Some m) now ui0) es = true →
     fetches p ≤ 1).
Proof.
  intros Hm Hrun. split; [|split].
  - unfold step, due. simpl.
    rewrite bool_decide_eq_true_2; [done|]. lia.
  - intros k d p' H. pose proof (wf_run _ _ _ _ _ _ _ Hrun) as W.
    apply run_closure in Hrun as (_ & _ & Hmax & _). simpl in Hmax.
    fulfil_cases H; try done. simpl.
    apply bool_decide_eq_true in Heqb. apply (wf_inflight _ W) in Heqb.
    unfold finished in *. apply orb_false_iff in Heqb0 as [_ Hb].
    apply bool_decide_eq_false in Hb. lia.
  - intros Hseq.
    destruct (seq_run es _ _ (wf_start _ _ _ _ _) (seq_start _ _ _ _ _) Hseq Hrun)
      as [W Q].
    apply run_closure in Hrun as (_ & _ & Hmax & _). simpl in Hmax.
    rewrite (wf_fetches _ W). destruct (sq_budget _ Q); lia.
Qed.

(** [X7] Requests are never issued faster than the period of the timer
    allows: the request of tick [k] goes out no earlier than [k] periods
    of 3000 ms after the start, so a session that has been running for a
    time [T] has issued at most [T / 3000] requests. *)
Theorem request_rate_is_bounded id f m now (ui0 : UI) es p :
  run (pollDisasterAnalysis id f m now ui0) es = Some p →
  (now + INTERVAL_MS * N.of_nat (fetches p) ≤ clock p)%N ∧
  (N.of_nat (fetches p) ≤ (clock p - now) / 3000)%N ∧
  ∀ t k id', (t, ObsFetch k id') ∈ trace p →
    (now + INTERVAL_MS * N.of_nat k ≤ t)%N.
Proof.
  intros Hrun. pose proof (wf_run _ _ _ _ _ _ _ Hrun) as W.
  apply run_closure in Hrun as (_ & _ & _ & Hs). simpl in Hs.
  pose proof (wf_clock _ W) as Hc. rewrite Hs, <- (wf_fetches _ W) in Hc.
  split; [done|]. split.
  - apply N.div_le_lower_bound; [done|]. unfold INTERVAL_MS in Hc. lia.
  - intros t k id' Hin.
    destruct (wf_times _ W t _ k Hin eq_refl) as [_ Ht]. by rewrite Hs in Ht.
Qed.

End PollerMore.

Section Responses.
Context {UI : Type}.
Implicit Types (p : Poll UI) (e : Event) (es : list Event).

(** *** Every response reaches the sink *)

Lemma calls_delivered (t : list (N * Obs)) :
  count_updates t = length (deliveries t).
Proof.
  unfold count_updates, deliveries.
  induction t as [|[c o] t IH]; [done|].
  rewrite filter_cons. destruct o; simpl; rewrite ?IH; done.
Qed.

Lemma responses_step p e p' :
  step p e = Some p' → delivered p' = delivered p ++ responses [e].
Proof.
  intros H.
  step_cases H;
    unfold delivered, tick, catch, stop, elapse;
    cbn [trace]; rewrite ?delivered_observe; unfold delivered;
    cbn [fmap list_fmap deliveries responses omap list_omap snd app];
    rewrite ?app_nil_r; done.
Qed.

Lemma responses_run es : ∀ p p',
  run p es = Some p' → delivered p' = delivered p ++ responses es.
Proof.
  induction es as [|e es IH]; intros p p' Hrun; simpl in Hrun.
  - simplify_eq. by rewrite app_nil_r.
  - destruct (step p e) as [p1|] eqn:E; [|done].
    rewrite (IH _ _ Hrun), (responses_step _ _ _ E), <- app_assoc.
    f_equal. change (e :: es) with ([e] ++ es).
    unfold responses. by rewrite omap_app.
Qed.

(** [X18] Every response that comes back fulfilled is handed to the sink,
    once and in the order of arrival, whatever happened before: the same
    status as last time, an analyzed snapshot already delivered, a budget
    already spent, a failure of another tick, a cleared handle.  So the
    sink is invoked exactly as often as responses came back fulfilled. *)
Theorem every_response_is_delivered id f m now (ui0 : UI) es p :
  run (pollDisasterAnalysis id f m now ui0) es = Some p →
  delivered p = responses es ∧ calls p = length (responses es).
Proof.
  intros Hrun%responses_run. simpl in Hrun.
  split; [done|]. unfold calls. by rewrite calls_delivered, <- Hrun.
Qed.

(** *** A backend that does not answer *)

Lemma unanswered_S n : unanswered (S n) = unanswered n ++ [EvElapse INTERVAL_MS; EvTimer].
Proof. unfold unanswered. by rewrite replicate_S_end, join_app. Qed.

Lemma wait_then_tick p :
  interval p = true →
  (due p ≤ clock p + INTERVAL_MS)%N →
  run p [EvElapse INTERVAL_MS; EvTimer] = Some (tick (elapse INTERVAL_MS p)).
Proof.
  intros Hl Hdue. simpl. rewrite Hl. simpl.
  by rewrite bool_decide_eq_true_2.
Qed.

Lemma unanswered_run id f m now (ui0 : UI) n :
  ∃ p, run (pollDisasterAnalysis id f m now ui0) (unanswered n) = Some p ∧
       attempts p = n ∧ inflight p = seq 1 n ∧ interval p = true ∧
       clock p = (now + INTERVAL_MS * N.of_nat n)%N ∧ started p = now.
Proof.
  induction n as [|n (p & Hrun & Ha & Hi & Hl & Hc & Hs)].
  - eexists. split; [reflexivity|]. simpl. repeat split; try done.
    unfold INTERVAL_MS. lia.
  - exists (tick (elapse INTERVAL_MS p)). split.
    + rewrite unanswered_S, run_app, Hrun. apply wait_then_tick; [done|].
      unfold due. rewrite Hs, Hc, Ha. unfold INTERVAL_MS. lia.
    + unfold tick, elapse. cbn [attempts inflight interval clock started].
      rewrite Ha, Hi, Hc, seq_S.
      split; [done|]. split; [done|]. split; [done|].
      split; [unfold INTERVAL_MS; lia|done].
Qed.

(** [X19] The session has no timeout of its own and does not look at its
    budget while it waits: as long as no response comes back the timer
    keeps firing, and after [n] periods [n] requests have been issued and
    are all pending, for every [n] and every [maxAttempts]. *)
Theorem unanswered_requests_pile_up id f m now (ui0 : UI) n :
  ∃ p, run (pollDisasterAnalysis id f m now ui0) (unanswered n) = Some p ∧
       fetches p = n ∧ inflight p = seq 1 n ∧ interval p = true ∧
       calls p = 0 ∧ clock p = (now + INTERVAL_MS * N.of_nat n)%N.
Proof.
  destruct (unanswered_run id f m now ui0 n)
    as (p & Hrun & Ha & Hi & Hl & Hc & _).
  exists p. split; [done|].
  pose proof (wf_run _ _ _ _ _ _ _ Hrun) as W.
  split; [by rewrite (wf_fetches _ W)|]. split; [done|]. split; [done|].
  split; [|done].
  pose proof (responses_run _ _ _ Hrun) as Hd. simpl in Hd.
  unfold calls. rewrite calls_delivered. fold (delivered p). rewrite Hd.
  unfold unanswered. clear. induction n as [|n IH]; [done|]. simpl. exact IH.
Qed.

Lemma settle_head (k : nat) (l : list nat) p :
  inflight p = k :: l → k ∉ l → settle k p = l.
Proof.
  intros Hi Hk. unfold settle. rewrite Hi, filter_cons.
  destruct (decide (k ≠ k)); [done|]. by apply filter_ne_notin.
Qed.

Lemma answers_run d r : ∀ s p,
  inflight p = seq s r →
  ∃ p', run p ((λ k, EvFulfil k d) <$> seq s r) = Some p' ∧
        inflight p' = [] ∧ attempts p' = attempts p.
Proof.
  induction r as [|r IH]; intros s p Hi; simpl.
  - exists p. by rewrite Hi.
  - assert (Hs : s ∈ inflight p) by (rewrite Hi; simpl; left).
    rewrite bool_decide_eq_true_2 by done.
    assert (Hrest : settle s p = seq (S s) r).
    { apply settle_head with (l := seq (S s) r); [done|].
      rewrite list_elem_of_In, in_seq. lia. }
    assert (Hnext : inflight (resume s d p) = seq (S s) r ∧
                    attempts (resume s d p) = attempts p).
    { unfold resume. destruct (onUpdate p d (ui p)); [destruct (finished d p)|];
        simpl; done. }
    destruct Hnext as (Hi' & Ha').
    destruct (IH (S s) (resume s d p) Hi') as (p' & Hrun & Hnil & Ha).
    exists p'. split; [done|]. split; [done|]. congruence.
Qed.

(** [X20] Responses that come back late are all delivered, budget or not:
    when [n] ticks have fired before the first response arrives and the
    [n] responses then come back, the sink is invoked [n] times, for every
    [n], every [maxAttempts] and every status, and whether or not the sink
    throws. *)
Theorem late_responses_are_all_delivered id f m now (ui0 : UI) n d :
  ∃ p, run (pollDisasterAnalysis id f m now ui0) (unanswered n ++ answers n d) = Some p ∧
       calls p = n ∧ fetches p = n ∧ inflight p = [] ∧
       delivered p = (λ k, (k, d)) <$> seq 1 n.
Proof.
  destruct (unanswered_run id f m now ui0 n) as (p1 & Hrun1 & Ha & Hi & _).
  destruct (answers_run d n 1 p1 Hi) as (p & Hrun2 & Hnil & Ha').
  assert (Hrun : run (pollDisasterAnalysis id f m now ui0)
                   (unanswered n ++ answers n d) = Some p).
  { rewrite run_app, Hrun1. exact Hrun2. }
  exists p. split; [done|].
  pose proof (wf_run _ _ _ _ _ _ _ Hrun) as W.
  pose proof (responses_run _ _ _ Hrun) as Hd. simpl in Hd.
  assert (Hresp : responses (unanswered n ++ answers n d) = (λ k, (k, d)) <$> seq 1 n).
  { unfold responses, answers. rewrite omap_app.
    replace (omap _ (unanswered n)) with (@nil (nat * Disaster)).
    - simpl. generalize 1. clear. induction n as [|n IH]; intros s; simpl; [done|].
      f_equal. apply IH.
    - unfold unanswered. clear. induction n as [|n IH]; [done|]. simpl. exact IH. }
  split.
  { unfold calls. rewrite calls_delivered. fold (delivered p).
    by rewrite Hd, Hresp, length_fmap, length_seq. }
  split; [rewrite (wf_fetches _ W); congruence|]. split; [done|].
  by rewrite Hd, Hresp.
Qed.

End Responses.

(** * Further properties of report submission *)

Section SubmitMore.
Import App.
Implicit Types (a : State).

(** *** The two ways a submission ends *)

(** [X8] A submission that fails leaves the form ready for another try:
    the draft is untouched, the message asks whether the backend is
    running, the button is enabled again (it was disabled while the
    request was pending), no polling starts, and submitting again sends
    the same request.  An analysis result shown from an earlier report is
    gone all the same: it was cleared before the request went out. *)
Theorem failed_submission_keeps_draft a :
  location (draft a) ≠ "" →
  let a1 := (handleSubmit a).1 in
  let a2 := handleSubmit_rejected a1 in
  submitting a1 = true ∧ submitting a2 = false ∧
  draft a2 = draft a ∧
  submitError a2 = "Failed to report incident. Is the backend running?" ∧
  analysisResult a2 = None ∧
  view a2 = view a ∧ analyzing a2 = analyzing a ∧ saved a2 = saved a ∧
  net a2 = net a ++ [reportDisaster (create_body (draft a))] ∧
  (handleSubmit a2).2 = (handleSubmit a).2.
Proof.
  intros Hloc a1 a2. subst a1 a2.
  rewrite (handleSubmit_sends a Hloc). simpl.
  repeat (split; [done|]).
  unfold handleSubmit. simpl.
  destruct (truthy (location (draft a))) eqn:E; [done|].
  by apply truthy_false in E.
Qed.

(** [X9] A submission that succeeds empties the form, shows the analysis
    view without a result, sets the analyzing flag, enables the button
    again and starts a session on the identifier the backend returned,
    with the default budget of 20 and nothing fetched yet.  Submitting the
    emptied form again is refused without a request, and every request the
    session ever issues is for that identifier. *)
Theorem successful_submission_starts_polling a id now :
  location (draft a) ≠ "" →
  let p := handleSubmit_fulfilled id now (handleSubmit a).1 in
  draft (ui p) = emptyDraft ∧ view (ui p) = "analysis" ∧
  analysisResult (ui p) = None ∧ analyzing (ui p) = true ∧
  submitting (ui p) = false ∧ submitError (ui p) = "" ∧
  disasterId p = id ∧ maxAttempts p = 20%Z ∧ interval p = true ∧ trace p = [] ∧
  (handleSubmit (ui p)).2 = None ∧
  ∀ es q, run p es = Some q →
    requests (trace q) = (λ k, (k, id)) <$> seq 1 (attempts q).
Proof.
  intros Hloc p. subst p.
  rewrite (handleSubmit_sends a Hloc). simpl.
  repeat (split; [done|]).
  intros es q Hrun. eapply requests_numbered. exact Hrun.
Qed.

(** *** What the sink of [handleSubmit] does to the component *)

Lemma onUpdate_snoc a l kd :
  replay handleSubmit_onUpdate a (l ++ [kd]) =
    outcome (handleSubmit_onUpdate kd.2 (replay handleSubmit_onUpdate a l)).
Proof. unfold replay. by rewrite foldl_app. Qed.


Lemma replay_analyzing a (l : list (nat * Disaster)) :
  analyzing (replay handleSubmit_onUpdate a l) =
    analyzing a && forallb (λ kd, negb (is_analyzed kd.2)) l.
Proof.
  induction l as [|kd l IH] using rev_ind; [by rewrite andb_true_r|].
  rewrite onUpdate_snoc, forallb_app. simpl.
  destruct (handleSubmit_onUpdate_spec kd.2 (replay handleSubmit_onUpdate a l))
    as (a' & -> & _ & Hflag).
  simpl. rewrite Hflag, IH. destruct (is_analyzed kd.2); simpl.
  - by rewrite !andb_false_r.
  - by rewrite !andb_true_r.
Qed.

Lemma replay_net a (l : list (nat * Disaster)) :
  net (replay handleSubmit_onUpdate a l) =
    net a ++ replicate (length (filter (λ kd, is_analyzed kd.2 = true) l))
               getActiveDisasters.
Proof.
  induction l as [|kd l IH] using rev_ind; [by rewrite app_nil_r|].
  rewrite onUpdate_snoc, filter_app, length_app, replicate_add, app_assoc, <- IH.
  unfold handleSubmit_onUpdate. rewrite filter_cons, filter_nil.
  destruct (is_analyzed kd.2) eqn:E; simpl; [done|by rewrite app_nil_r].
Qed.


(** The [finally] block runs before the first tick, so the session is the
    one [pollDisasterAnalysis] would start on the state it leaves. *)
Lemma handleSubmit_fulfilled_start id now a :
  handleSubmit_fulfilled id now a =
    pollDisasterAnalysis id handleSubmit_onUpdate None now
      (setSubmitting false (setView "analysis" (resetDraft (setAnalyzing true a)))).
Proof. reflexivity. Qed.

Lemma submitted_session_replays id now a es p :
  run (handleSubmit_fulfilled id now a) es = Some p →
  ui p = replay handleSubmit_onUpdate (ui (handleSubmit_fulfilled id now a))
           (delivered p).
Proof.
  intros (new & Hd & Hu)%replay_run. simpl in *. by rewrite Hd, Hu.
Qed.


(** [X11] The sink asks for the list of active incidents once for every
    analyzed snapshot it receives and never otherwise; the component
    issues no other request while the session runs. *)
Theorem incidents_refetched_per_analyzed_snapshot id now a es p :
  run (handleSubmit_fulfilled id now a) es = Some p →
  net (ui p) =
    net a ++ replicate (length (filter (λ kd, is_analyzed kd.2 = true) (delivered p)))
               getActiveDisasters.
Proof.
  intros Hrun%submitted_session_replays. rewrite Hrun. by rewrite replay_net.
Qed.

Lemma some_analyzed (l : list (nat * Disaster)) :
  forallb (λ kd, negb (is_analyzed kd.2)) l = false ↔
  ∃ k d, (k, d) ∈ l ∧ is_analyzed d = true.
Proof.
  induction l as [|[k d] l IH]; simpl.
  - split; [done|]. intros (k & d & Hin & _). by apply elem_of_nil in Hin.
  - destruct (is_analyzed d) eqn:E; simpl.
    + split; [|done]. intros _. exists k, d. split; [left|done].
    + rewrite IH. split.
      * intros (k' & d' & Hin & Hd). exists k', d'. split; [by right|done].
      * intros (k' & d' & Hin & Hd).
        apply elem_of_cons in Hin as [Heq|Hin]; [|eauto].
        simplify_eq. congruence.
Qed.

(** [X12] The analyzing flag tells whether an analyzed snapshot has been
    delivered: it is set as long as none has, and once one has it is
    cleared and stays cleared for the rest of the session, also when a
    snapshot delivered later is not analyzed. *)
Theorem analyzing_flag_tracks_analyzed_delivery id now a es p :
  run (handleSubmit_fulfilled id now a) es = Some p →
  analyzing (ui p) = forallb (λ kd, negb (is_analyzed kd.2)) (delivered p) ∧
  (analyzing (ui p) = false ↔ ∃ k d, (k, d) ∈ delivered p ∧ is_analyzed d = true).
Proof.
  intros Hrun.
  assert (Hflag : analyzing (ui p) =
            forallb (λ kd, negb (is_analyzed kd.2)) (delivered p)).
  { rewrite (submitted_session_replays _ _ _ _ _ Hrun), replay_analyzing. done. }
  split; [done|]. rewrite Hflag. apply some_analyzed.
Qed.

End SubmitMore.

(** * Properties of the form and the resource popup *)

Section FormFacts.
Import App Form.
Implicit Types (a : State) (d : Draft) (prev : ResourceFields).

(** *** Editing the draft *)

Lemma read_assign_eq field value d :
  is_Some (read field d) → read field (assign field value d) = Some value.
Proof.
  unfold read, assign. intros [v Hv].
  repeat case_decide; subst; simpl; try done; congruence.
Qed.

Lemma read_assign_ne field other value d :
  other ≠ field → read other (assign field value d) = read other d.
Proof.
  unfold read, assign. intros Hne.
  repeat case_decide; subst; simpl; try done; congruence.
Qed.

(** [X13] Typing into one field of the form stores the text in that field
    of the draft and leaves the other four alone.  It also marks the draft
    as not saved, and it does not take back an error message that is
    showing. *)
Theorem updateDraft_sets_one_field field value a :
  is_Some (read field (draft a)) →
  read field (draft (updateDraft field value a)) = Some value ∧
  (∀ other, other ≠ field →
     read other (draft (updateDraft field value a)) = read other (draft a)) ∧
  saved (updateDraft field value a) = false ∧
  submitError (updateDraft field value a) = submitError a ∧
  view (updateDraft field value a) = view a ∧
  net (updateDraft field value a) = net a.
Proof.
  intros Hfield. simpl. split; [by apply read_assign_eq|].
  split; [|done]. intros other Hne. by apply read_assign_ne.
Qed.

(** *** Saving and closing *)

(** [X14] Saving protects a draft from exactly one Close.  Closing the
    form right after Save Draft keeps the draft, but it takes the saved
    mark away; so closing a second time, or closing after another
    keystroke, empties the draft, as closing an unsaved draft does (which
    also takes back the error message).  Close always returns to the
    country view. *)
Theorem saved_draft_survives_one_close a :
  let s := (onSaveDraft a).1 in
  draft (onClose s) = draft a ∧ saved (onClose s) = false ∧
  view (onClose s) = "country" ∧ submitError (onClose s) = submitError a ∧
  draft (onClose (onClose s)) = emptyDraft ∧
  (∀ field value, draft (onClose (updateDraft field value s)) = emptyDraft) ∧
  (saved a = false →
     draft (onClose a) = emptyDraft ∧ submitError (onClose a) = "" ∧
     view (onClose a) = "country").
Proof.
  simpl. repeat (split; [done|]).
  intros Hs. unfold onClose. rewrite Hs. done.
Qed.

(** *** The fields of the resource popup *)

Lemma readResourceField_update_eq resource field value prev :
  readResourceField resource field (updateResourceField resource field value prev)
    = Some (Some value).
Proof.
  unfold readResourceField, updateResourceField.
  rewrite lookup_insert_eq. simpl. by rewrite lookup_insert_eq.
Qed.

Lemma readResourceField_update_other resource field value prev r f :
  r ≠ resource →
  readResourceField r f (updateResourceField resource field value prev)
    = readResourceField r f prev.
Proof.
  intros Hne. unfold readResourceField, updateResourceField.
  by rewrite lookup_insert_ne.
Qed.

Lemma readResourceField_update_sibling resource field value prev f :
  f ≠ field →
  readResourceField resource f (updateResourceField resource field value prev)
    = Some (prev !! resource ≫= λ fs, fs !! f).
Proof.
  intros Hne. unfold readResourceField, updateResourceField.
  rewrite lookup_insert_eq. simpl. rewrite lookup_insert_ne by done.
  destruct (prev !! resource); simpl; [done|]. by rewrite lookup_empty.
Qed.

(** [X15] An edit in the popup of a resource is read back as written, and
    it leaves every other field of that resource and every other resource
    as it was.  No resource is ever removed.  For a resource that was not
    there, the edit creates it with that one field, so its other fields
    then read [undefined] where reading them threw before. *)
Theorem updateResourceField_writes_one_field resource field value prev :
  readResourceField resource field (updateResourceField resource field value prev)
    = Some (Some value) ∧
  (∀ r f, r ≠ resource →
     readResourceField r f (updateResourceField resource field value prev)
       = readResourceField r f prev) ∧
  (∀ f, f ≠ field →
     readResourceField resource f (updateResourceField resource field value prev)
       = Some (prev !! resource ≫= λ fs, fs !! f)) ∧
  dom (updateResourceField resource field value prev) = {[resource]} ∪ dom prev.
Proof.
  split; [apply readResourceField_update_eq|]. split; [|split].
  - intros r f Hne. by apply readResourceField_update_other.
  - intros f Hne. by apply readResourceField_update_sibling.
  - unfold updateResourceField. by rewrite dom_insert_L.
Qed.

(** [X16] Edits to different fields do not depend on the order in which
    they are applied, whether the fields belong to the same resource or
    not; two edits to the same field leave the later value. *)
Theorem updateResourceField_commutes r1 f1 v1 r2 f2 v2 prev :
  (r1, f1) ≠ (r2, f2) →
  updateResourceField r1 f1 v1 (updateResourceField r2 f2 v2 prev) =
  updateResourceField r2 f2 v2 (updateResourceField r1 f1 v1 prev) ∧
  updateResourceField r1 f1 v1 (updateResourceField r1 f1 v2 prev) =
  updateResourceField r1 f1 v1 prev.
Proof.
  intros Hne. unfold updateResourceField. split.
  - destruct (decide (r1 = r2)) as [->|Hr].
    + assert (f1 ≠ f2) by congruence.
      rewrite !lookup_insert_eq, !insert_insert_eq. simpl.
      f_equal. by apply insert_insert_ne.
    + rewrite !lookup_insert_ne by done. by apply insert_insert_ne.
  - rewrite lookup_insert_eq, insert_insert_eq. simpl.
    by rewrite insert_insert_eq.
Qed.

(** [X17] Whatever is typed into the popups, the three fields of each of
    the four resources stay readable: reading one never throws and never
    yields [undefined]. *)
Theorem popup_fields_stay_readable (edits : list (string * string * string))
    resource field :
  resource ∈ ["Fire Trucks"; "Ambulances"; "Police Units"; "Others"] →
  field ∈ ["total"; "nearestWithin100m"; "estimatedResponseTime"] →
  ∃ value,
    readResourceField resource field
      (foldl (λ fs e, updateResourceField e.1.1 e.1.2 e.2 fs)
         initialResourceFields edits) = Some (Some value).
Proof.
  intros Hr Hf.
  induction edits as [|[[r f] v] edits IH] using rev_ind.
  - simpl. exists "".
    repeat (apply elem_of_cons in Hr as [->|Hr];
      [repeat (apply elem_of_cons in Hf as [->|Hf]; [by vm_compute|]);
       by apply elem_of_nil in Hf|]).
    by apply elem_of_nil in Hr.
  - rewrite foldl_app. simpl. destruct IH as [old Hold].
    set (fs := foldl _ _ edits) in *.
    destruct (decide (resource = r)) as [->|Hne].
    + destruct (decide (field = f)) as [->|Hnf].
      * exists v. apply readResourceField_update_eq.
      * exists old.
        rewrite (readResourceField_update_sibling r f v fs field Hnf).
        unfold readResourceField in Hold.
        destruct (fs !! r) as [inner|]; simpl in *; [exact Hold|done].
    + exists old. by rewrite (readResourceField_update_other r f v fs resource field Hne).
Qed.

End FormFacts.

(** * The further properties at work *)

(** Running a closed schedule and naming its outcome. *)
Ltac closed_run p E :=
  match goal with
  | |- context [run ?s ?es] =>
      let H := fresh in
      assert (H : match run s es with Some _ => true | None => false end = true)
        by (vm_compute; reflexivity);
      destruct (run s es) as [p|] eqn:E; [clear H|discriminate H]
  end.

Section MoreScenarios.
Import App Form.

Lemma requests_are_numbered_witness :
  ∃ p, run session7 (steady 3) = Some p ∧
       requests (trace p) = (λ k, (k, 7%N)) <$> seq 1 (attempts p).
Proof.
  closed_run p E. exists p. split; [reflexivity|].
  destruct (requests_are_numbered 7%N counting_sink None 0%N 0 (steady 3) p E)
    as [H _].
  exact H.
Defined.

Lemma deliveries_answer_requests_witness :
  ∃ p, run session7 (slow_network 3) = Some p ∧
       requested_first 7 (trace p) ∧ NoDup ((delivered p).*1).
Proof.
  closed_run p E. exists p. split; [reflexivity|].
  destruct (deliveries_answer_requests 7%N counting_sink None 0%N 0
              (slow_network 3) p E) as (H1 & H2 & _).
  exact (conj H1 H2).
Defined.

Lemma sink_state_is_replay_witness :
  ∃ p, run session7 (steady 3) = Some p ∧
       ui p = replay counting_sink 0 (delivered p).
Proof.
  closed_run p E. exists p. split; [reflexivity|].
  exact (sink_state_is_replay 7%N counting_sink None 0%N 0 (steady 3) p E).
Defined.

Lemma throwing_sink_ends_polling_witness :
  let p := tick (elapse 3000 (pollDisasterAnalysis 7 failing_sink None 0 0)) in
  let d := snapshot "analyzing" in
  step p (EvFulfil 1 d) = Some (resume 1 d p) ∧
  onUpdate p d (ui p) = Throw 1 ∧
  ui (resume 1 d p) = 1 ∧ interval (resume 1 d p) = false.
Proof.
  intros p d.
  assert (H1 : step p (EvFulfil 1 d) = Some (resume 1 d p)) by reflexivity.
  assert (H2 : onUpdate p d (ui p) = Throw 1) by reflexivity.
  split; [exact H1|]. split; [exact H2|].
  destruct (throwing_sink_ends_polling p 1 d 1 (resume 1 d p) H1 H2)
    as (_ & Hu & Hc & _).
  exact (conj Hu Hc).
Defined.

Lemma steady_polling_spends_budget_witness :
  (∀ d u, ∃ u', counting_sink d u = Normal u') ∧
  forallb keeps_polling (steady 20) = true ∧
  sequential session7 (steady 20) = true ∧
  ∃ p, run session7 (steady 20) = Some p ∧ interval p = false ∧
       Z.of_nat (calls p) = Z.max 1 20.
Proof.
  assert (Ht : ∀ (d : Disaster) (u : nat), ∃ u', counting_sink d u = Normal u')
    by (intros d u; eexists; reflexivity).
  assert (Hk : forallb keeps_polling (steady 20) = true) by (vm_compute; reflexivity).
  assert (Hs : sequential session7 (steady 20) = true) by (vm_compute; reflexivity).
  split; [exact Ht|]. split; [exact Hk|]. split; [exact Hs|].
  closed_run p E. exists p. split; [reflexivity|].
  assert (Hc : interval <$> run session7 (steady 20) = Some false)
    by (vm_compute; reflexivity).
  rewrite E in Hc. injection Hc as Hc.
  destruct (steady_polling_spends_budget 7%N counting_sink None 0%N 0
              (steady 20) p Ht Hk Hs E) as [Hdone _].
  destruct (Hdone Hc) as (Hn & _).
  exact (conj Hc Hn).
Defined.

Lemma budget_below_one_polls_once_witness :
  let p0 := pollDisasterAnalysis 7 counting_sink (Some 0%Z) 0 0 in
  let es := [EvElapse 3000; EvTimer; EvFulfil 1 (snapshot "reported")] in
  (0 ≤ 1)%Z ∧ sequential p0 es = true ∧
  ∃ p, run p0 es = Some p ∧ fetches p ≤ 1 ∧
       ∀ k d p', step p (EvFulfil k d) = Some p' → interval p' = false.
Proof.
  intros p0 es.
  assert (Hm : (0 ≤ 1)%Z) by lia.
  assert (Hs : sequential p0 es = true) by (vm_compute; reflexivity).
  split; [exact Hm|]. split; [exact Hs|].
  closed_run p E. exists p. split; [reflexivity|].
  destruct (budget_below_one_polls_once 7%N counting_sink 0%Z 0%N 0 es p Hm E)
    as (_ & Hclear & Hone).
  exact (conj (Hone Hs) Hclear).
Defined.

Lemma request_rate_is_bounded_witness :
  ∃ p, run session7 (steady 3) = Some p ∧
       (0 + INTERVAL_MS * N.of_nat (fetches p) ≤ clock p)%N.
Proof.
  closed_run p E. exists p. split; [reflexivity|].
  destruct (request_rate_is_bounded 7%N counting_sink None 0%N 0 (steady 3) p E)
    as [H _].
  exact H.
Defined.

Lemma every_response_is_delivered_witness :
  ∃ p, run session7 (slow_network 3) = Some p ∧
       delivered p = responses (slow_network 3) ∧ calls p = 3.
Proof.
  closed_run p E. exists p. split; [reflexivity|].
  destruct (every_response_is_delivered 7%N counting_sink None 0%N 0
              (slow_network 3) p E) as [Hd Hc].
  exact (conj Hd Hc).
Defined.

Lemma failed_submission_keeps_draft_witness :
  let a := typed (mkDraft "123 Main St" "smoke" "" "" "") in
  location (draft a) ≠ "" ∧
  draft (handleSubmit_rejected (handleSubmit a).1) = draft a ∧
  submitting (handleSubmit_rejected (handleSubmit a).1) = false.
Proof.
  intros a.
  assert (Ha : location (draft a) ≠ "") by (vm_compute; discriminate).
  destruct (failed_submission_keeps_draft a Ha) as (_ & Hs & Hd & _).
  exact (conj Ha (conj Hd Hs)).
Defined.

Lemma successful_submission_starts_polling_witness :
  let a := typed (mkDraft "123 Main St" "smoke" "" "" "") in
  let p := handleSubmit_fulfilled 42 0 (handleSubmit a).1 in
  location (draft a) ≠ "" ∧
  draft (ui p) = emptyDraft ∧ view (ui p) = "analysis" ∧
  run p [EvElapse 3000; EvTimer] = Some (tick (elapse 3000 p)) ∧
  requests (trace (tick (elapse 3000 p))) =
    (λ k, (k, 42%N)) <$> seq 1 (attempts (tick (elapse 3000 p))).
Proof.
  intros a p.
  assert (Ha : location (draft a) ≠ "") by (vm_compute; discriminate).
  assert (Hrun : run p [EvElapse 3000; EvTimer] = Some (tick (elapse 3000 p)))
    by reflexivity.
  destruct (successful_submission_starts_polling a 42%N 0%N Ha)
    as (Hd & Hv & _ & _ & _ & _ & _ & _ & _ & _ & _ & Hreq).
  exact (conj Ha (conj Hd (conj Hv (conj Hrun (Hreq _ _ Hrun))))).
Defined.


Lemma incidents_refetched_per_analyzed_snapshot_witness :
  let a := (handleSubmit (typed (mkDraft "123 Main St" "smoke" "" "" ""))).1 in
  ∃ p, run (handleSubmit_fulfilled 42 0 a)
         [EvElapse 3000; EvTimer; EvFulfil 1 (snapshot "analyzed")] = Some p ∧
       net (ui p) =
         net a ++ replicate
                    (length (filter (λ kd, is_analyzed kd.2 = true) (delivered p)))
                    getActiveDisasters.
Proof.
  intros a. closed_run p E. exists p. split; [reflexivity|].
  exact (incidents_refetched_per_analyzed_snapshot 42%N 0%N a _ p E).
Defined.

Lemma analyzing_flag_tracks_analyzed_delivery_witness :
  let a := (handleSubmit (typed (mkDraft "123 Main St" "smoke" "" "" ""))).1 in
  ∃ p, run (handleSubmit_fulfilled 42 0 a)
         [EvElapse 3000; EvTimer; EvFulfil 1 (snapshot "analyzed")] = Some p ∧
       analyzing (ui p) = forallb (λ kd, negb (is_analyzed kd.2)) (delivered p).
Proof.
  intros a. closed_run p E. exists p. split; [reflexivity|].
  destruct (analyzing_flag_tracks_analyzed_delivery 42%N 0%N a _ p E) as [H _].
  exact H.
Defined.

Lemma updateDraft_sets_one_field_witness :
  is_Some (read "location" (draft initial)) ∧
  read "location" (draft (updateDraft "location" "123 Main St" initial))
    = Some "123 Main St" ∧
  "description" ≠ "location" ∧
  read "description" (draft (updateDraft "location" "123 Main St" initial))
    = read "description" (draft initial).
Proof.
  assert (H0 : is_Some (read "location" (draft initial)))
    by (eexists; reflexivity).
  assert (Hne : "description" ≠ "location") by discriminate.
  destruct (updateDraft_sets_one_field "location" "123 Main St" initial H0)
    as (Hset & Hother & _).
  exact (conj H0 (conj Hset (conj Hne (Hother "description" Hne)))).
Defined.

Lemma saved_draft_survives_one_close_witness :
  let a := typed (mkDraft "123 Main St" "smoke" "" "" "") in
  saved a = false ∧ draft (onClose a) = emptyDraft ∧
  draft (onClose (onSaveDraft a).1) = draft a.
Proof.
  intros a.
  assert (Hs : saved a = false) by reflexivity.
  destruct (saved_draft_survives_one_close a) as (Hkeep & _ & _ & _ & _ & _ & Hdrop).
  destruct (Hdrop Hs) as (Hd & _).
  exact (conj Hs (conj Hd Hkeep)).
Defined.

Lemma updateResourceField_writes_one_field_witness :
  let fs := updateResourceField "Fire Trucks" "total" "12" initialResourceFields in
  "Others" ≠ "Fire Trucks" ∧
  readResourceField "Others" "total" fs
    = readResourceField "Others" "total" initialResourceFields ∧
  "nearestWithin100m" ≠ "total" ∧
  readResourceField "Fire Trucks" "nearestWithin100m" fs
    = Some (initialResourceFields !! "Fire Trucks" ≫= λ r, r !! "nearestWithin100m").
Proof.
  intros fs.
  assert (H1 : "Others" ≠ "Fire Trucks") by discriminate.
  assert (H2 : "nearestWithin100m" ≠ "total") by discriminate.
  destruct (updateResourceField_writes_one_field "Fire Trucks" "total" "12"
              initialResourceFields) as (_ & Hother & Hsib & _).
  exact (conj H1 (conj (Hother "Others" "total" H1)
          (conj H2 (Hsib "nearestWithin100m" H2)))).
Defined.

Lemma updateResourceField_commutes_witness :
  ("Fire Trucks", "total") ≠ ("Others", "total") ∧
  updateResourceField "Fire Trucks" "total" "12"
    (updateResourceField "Others" "total" "3" initialResourceFields) =
  updateResourceField "Others" "total" "3"
    (updateResourceField "Fire Trucks" "total" "12" initialResourceFields).
Proof.
  assert (H : ("Fire Trucks", "total") ≠ ("Others", "total")) by discriminate.
  destruct (updateResourceField_commutes "Fire Trucks" "total" "12"
              "Others" "total" "3" initialResourceFields H) as [Hc _].
  exact (conj H Hc).
Defined.

Lemma popup_fields_stay_readable_witness :
  "Fire Trucks" ∈ ["Fire Trucks"; "Ambulances"; "Police Units"; "Others"] ∧
  "total" ∈ ["total"; "nearestWithin100m"; "estimatedResponseTime"] ∧
  ∃ value,
    readResourceField "Fire Trucks" "total"
      (foldl (λ fs e, updateResourceField e.1.1 e.1.2 e.2 fs)
         initialResourceFields [("Others", "total", "3")]) = Some (Some value).
Proof.
  assert (H1 : "Fire Trucks" ∈ ["Fire Trucks"; "Ambulances"; "Police Units"; "Others"])
    by apply list_elem_of_here.
  assert (H2 : "total" ∈ ["total"; "nearestWithin100m"; "estimatedResponseTime"])
    by apply list_elem_of_here.
  exact (conj H1 (conj H2
    (popup_fields_stay_readable [("Others", "total", "3")] "Fire Trucks" "total" H1 H2))).
Defined.

End MoreScenarios.
